(** * SandboxBridge: the command channel and the sandbox bridge

    A shallow embedding of the two scripts an extension injects into a page:

    - [content.js]: the command channel.  An external controller writes a
      command into the cookie [pw_cmd]; [checkForCommands] polls it every
      50 ms, runs it with [executeCommand] and writes [pw_result] and
      [pw_status] back.
    - [sandbox-bridge.js]: class [SandboxBridge].  It owns a hidden sandbox
      iframe, relays [execute(code)] calls into it and answers the DOM
      queries the sandbox sends back.

    JavaScript values are modelled by the type [value]; numbers are
    integers.  What the scripts take from the browser (the DOM, JSON and
    URI coding, the text of engine errors) is an interface: the classes
    [Engine] and [Page].  Everything the scripts themselves do is written
    out below, statement by statement. *)

From Equations Require Import Equations.
From stdpp Require Import gmap strings list pretty.
From Stdlib Require Import Ascii ZArith Lia.

Set Default Proof Using "Type".
Set Warnings "-register-all".

(** ** JavaScript values and exceptions *)

Inductive value : Type :=
| VUndef
| VNull
| VBool (b : bool)
| VNum (n : Z)
| VStr (s : string)
| VArr (items : list value)
| VObj (fields : list (string * value)).

(** An [Error] object as the scripts read it: [error.message], [error.stack]. *)
Record exn : Type := Exn { message : string; stack : string }.

(** The result of evaluating an expression: a value or a thrown exception. *)
Inductive outcome (A : Type) : Type :=
| Return (a : A)
| Throw (e : exn).
Arguments Return {A} a.
Arguments Throw {A} e.

(** A statement sequence run against a mutable state [S].  A throw keeps the
    state changes made before it, as in JavaScript. *)
Definition M (S A : Type) : Type := S -> outcome A * S.

Definition ret {S A} (a : A) : M S A := fun s => (Return a, s).
Definition throw {S A} (e : exn) : M S A := fun s => (Throw e, s).
Definition bind {S A B} (m : M S A) (k : A -> M S B) : M S B :=
  fun s => match m s with
           | (Return a, s') => k a s'
           | (Throw e, s') => (Throw e, s')
           end.

(** [try { m } catch (error) { h error }] *)
Definition try_catch {S A} (m : M S A) (h : exn -> M S A) : M S A :=
  fun s => match m s with
           | (Return a, s') => (Return a, s')
           | (Throw e, s') => h e s'
           end.

(** An expression that reads nothing of the state. *)
Definition lift {S A} (o : outcome A) : M S A := fun s => (o, s).
Definition modify {S} (f : S -> S) : M S unit := fun s => (Return tt, f s).
Definition gets {S A} (f : S -> A) : M S A := fun s => (Return (f s), s).

Notation "'let!' x ':=' m 'in' k" := (bind m (fun x => k))
  (at level 10, x pattern, m at level 100, k at level 200).

(** [v === 'lit'] for a string literal. *)
Definition str_is (v : value) (lit : string) : bool :=
  match v with
  | VStr s => String.eqb s lit
  | _ => false
  end.

(** [v === null || v === undefined] *)
Definition nullish (v : value) : bool :=
  match v with
  | VUndef | VNull => true
  | _ => false
  end.

(** ToBoolean, as [if (v)], [!v] and [v || w] use it. *)
Definition truthy (v : value) : bool :=
  match v with
  | VUndef | VNull => false
  | VBool b => b
  | VNum n => negb (n =? 0)%Z
  | VStr s => negb (String.eqb s "")
  | VArr _ | VObj _ => true
  end.

(** The first field named [k] of an object literal's field list. *)
Fixpoint assoc (k : string) (fs : list (string * value)) : value :=
  match fs with
  | [] => VUndef
  | (k', v) :: fs' => if String.eqb k' k then v else assoc k fs'
  end.

(** What the JavaScript engine and the browser supply. *)
Class Engine : Type := {
  (** [decodeURIComponent(s)]; throws URIError on a malformed escape. *)
  decodeURIComponent : string -> outcome string;
  (** [JSON.parse(s)]; throws SyntaxError. *)
  JSON_parse : string -> outcome value;
  (** [JSON.stringify(v)]; throws on what it cannot serialise. *)
  JSON_stringify : value -> outcome string;
  (** [encodeURIComponent(s)] *)
  encodeURIComponent : string -> string;
  (** [new Error(m).stack] *)
  Error_stack : string -> string;
  (** The TypeError of [v.k] or [v.k(...)] on a [v] that cannot supply [k]. *)
  TypeError_read : value -> string -> exn;
  (** ToNumber of a string, an array or an object; [None] is NaN. *)
  ToNumber_object : value -> option Z;
  (** ToString of anything but a string or [undefined]. *)
  ToString_other : value -> string;
  (** The DataCloneError of [postMessage] on a payload that the structured
      clone refuses. *)
  DataCloneError : exn;
  (** An object of two string fields always serialises. *)
  JSON_stringify_flat : forall k1 s1 k2 s2,
    exists out, JSON_stringify (VObj [(k1, VStr s1); (k2, VStr s2)]) = Return out
}.

Section WithEngine.
Context `{Engine}.

(** [new Error(m)] *)
Definition new_Error (m : string) : exn := Exn m (Error_stack m).

(** [v.k] on a parsed JSON value or a message payload.  Reading a property
    of [null] or [undefined] throws; the keys the scripts read are own
    properties of objects only. *)
Definition get_field (v : value) (k : string) : outcome value :=
  match v with
  | VUndef | VNull => Throw (TypeError_read v k)
  | VObj fs => Return (assoc k fs)
  | _ => Return VUndef
  end.

(** ToNumber; [None] is NaN. *)
Definition to_number (v : value) : option Z :=
  match v with
  | VNum n => Some n
  | VUndef => None
  | VNull => Some 0%Z
  | VBool b => Some (if b then 1 else 0)%Z
  | _ => ToNumber_object v
  end.

(** ToString of the argument of [new Error(...)]: [undefined] gives the
    empty message. *)
Definition error_text (v : value) : string :=
  match v with
  | VStr s => s
  | VUndef => ""
  | _ => ToString_other v
  end.

End WithEngine.

(** A window reference, as [event.source] and [iframe.contentWindow] hold it. *)
Definition win : Type := nat.

(** ** The page

    A snapshot of the document as one handler sees it.  [elem] is the type
    of element references. *)
Record Page (elem : Type) : Type := {
  (** [document.querySelector(sel)]; throws on a selector that does not
      parse. *)
  querySelector : value -> outcome (option elem);
  (** [document.querySelectorAll(sel)] *)
  querySelectorAll : value -> outcome (list elem);
  (** [el.textContent] *)
  textContent : elem -> value;
  (** [el.getAttribute(name)] *)
  getAttribute : elem -> value -> value;
  (** [el.value = v]; throws where the element refuses the assignment. *)
  assign_value : elem -> value -> outcome unit;
  (** [el.click()]; throws a TypeError on an element that has no such
      method: only an HTML element has one, an SVG element has not. *)
  click : elem -> outcome unit;
  (** [el.innerHTML] *)
  innerHTML : elem -> string;
  (** [el.value], [el.tagName], [el.id], [el.content], and [el.className]
      where that is a string *)
  elem_prop : elem -> string -> value;
  (** Whether [el.className] is a string.  On an SVG element it is an
      SVGAnimatedString object, which the structured clone of
      [postMessage] refuses. *)
  className_string : elem -> bool;
  (** [el.attributes] as name and value pairs *)
  attributes : elem -> list (string * string);
  (** [document.title], [document.readyState], [document.cookie] *)
  document_prop : string -> value;
  (** [window.location.href], [.hostname], [.pathname] *)
  location_prop : string -> value;
  (** [document.documentElement] and [document.body] *)
  documentElement : option elem;
  body : option elem;
  (** [this.iframe.contentWindow]: the window of the sandbox iframe the
      bridge has put into the document; [null] ([None]) once the page has
      taken the iframe out of it. *)
  contentWindow : option win
}.
Arguments querySelector {elem}.
Arguments querySelectorAll {elem}.
Arguments textContent {elem}.
Arguments getAttribute {elem}.
Arguments assign_value {elem}.
Arguments click {elem}.
Arguments className_string {elem}.
Arguments contentWindow {elem}.
Arguments innerHTML {elem}.
Arguments elem_prop {elem}.
Arguments attributes {elem}.
Arguments document_prop {elem}.
Arguments location_prop {elem}.
Arguments documentElement {elem}.
Arguments body {elem}.

(** ** Strings, as the scripts cut them *)

(** [s.split(c)] for a one-character separator: never empty. *)
Fixpoint split_on (c : ascii) (s : string) : list string :=
  match s with
  | EmptyString => [EmptyString]
  | String a s' =>
      if Ascii.eqb a c then EmptyString :: split_on c s'
      else match split_on c s' with
           | [] => [String a EmptyString]
           | w :: ws => String a w :: ws
           end
  end.

(** [row.startsWith(p)] *)
Definition startsWith (row p : string) : bool := String.prefix p row.

(** ** content.js: the cookie store *)

Definition COMMAND_COOKIE : string := "pw_cmd".
Definition RESULT_COOKIE : string := "pw_result".
Definition STATUS_COOKIE : string := "pw_status".

(** The name of a cookie row [name=value]: what stands before the first [=]. *)
Definition cookie_name (row : string) : string :=
  match split_on "="%char row with
  | n :: _ => n
  | [] => row
  end.

(** A cookie the document can see: the row [name=value] that
    [document.cookie] shows for it, the domain it was given ([None] for a
    cookie without a [Domain] attribute, which belongs to the host alone)
    and the path it is stored under.  The browser keeps cookies of one
    name with different domains or paths apart. *)
Record cookie : Type :=
  Cookie { cookie_row : string; cookie_domain : option string; cookie_path : string }.

(** The store, in the order [document.cookie] lists it: cookies with
    longer paths first, and of those with equal paths the older first.
    Cookies are taken to be within the size the browser stores. *)
Abbreviation jar := (list cookie).

(** [document.cookie.split('; ')] *)
Definition rows (j : jar) : list string := map cookie_row j.

(** A cookie of the document's host, stored under the path [/]: where a
    write [name=value; path=/] of the document goes. *)
Definition root_scope (c : cookie) : bool :=
  String.eqb (cookie_path c) "/"
  && match cookie_domain c with None => true | Some _ => false end.

(** The cookie [name] that a write with [path=/] addresses. *)
Definition at_root (name : string) (c : cookie) : bool :=
  String.eqb (cookie_name (cookie_row c)) name && root_scope c.

(** [document.cookie = `${name}=${v}; path=/`]: replaces the cookie of that
    name at path [/] where it stands, or adds it; no path is shorter than
    [/], so a new cookie is listed last.  A cookie of the same name under
    another path, or with a domain, stays as it is. *)
Fixpoint set_cookie (name v : string) (j : jar) : jar :=
  match j with
  | [] => [Cookie (name +:+ "=" +:+ v) None "/"]
  | c :: j' =>
      if at_root name c then Cookie (name +:+ "=" +:+ v) None "/" :: j'
      else c :: set_cookie name v j'
  end.

(** [document.cookie = `${name}=; expires=Thu, 01 Jan 1970 00:00:00 UTC; path=/`]:
    an expiry in the past deletes the cookie of that name that the write
    addresses, and no other. *)
Definition expire_cookie (name : string) (j : jar) : jar :=
  filter (fun c => at_root name c = false) j.

(** [cookies.find(row => row.startsWith(name + '='))] *)
Definition find_cookie (name : string) (j : jar) : option string :=
  List.find (fun row => startsWith row (name +:+ "=")) (rows j).

(** A value together with the equation that names it, for a loop test that
    the termination proof has to remember. *)
Definition inspect {A : Type} (a : A) : sig (fun b => a = b) := exist _ a eq_refl.

(** ** content.js: [executeCommand] *)

Section Channel.
Context `{Engine} {elem : Type}.

(** What a handler does to the page, in order. *)
Inductive effect : Type :=
| Queried (sel : value)
| Clicked (el : elem)
| ValueSet (el : elem) (v : value)
| Dispatched (el : elem) (event_type : string)
| Slept (ms : Z).

(** The state the channel works on: the cookie store and the log of what
    was done to the page (oldest first). *)
Record world : Type := World { cookies : jar; dom_log : list effect }.

Definition log (e : effect) : M world unit :=
  modify (fun w => World (cookies w) (dom_log w ++ [e])).

(** [doc n] is the document as it stands after the handler has slept [n]
    times; [sandbox code] is how [window._sandboxBridge.execute(code)]
    settles: [Return] for a resolved promise, [Throw] for a rejected one
    (or for a bridge that is not there).  A promise that never settles
    leaves the handler suspended at its [await]: such a call is outside
    this model of the channel. *)
Variable doc : nat -> Page elem.
Variable sandbox : value -> outcome value.

(** [document.querySelector(sel)] at time [n] *)
Definition query (n : nat) (sel : value) : M world (option elem) :=
  let! _ := log (Queried sel) in lift (querySelector (doc n) sel).

(** [await new Promise(r => setTimeout(r, ms))] *)
Definition sleep (ms : Z) : M world unit := log (Slept ms).

(** [i < cmd.timeout / 100]: false when the timeout is NaN. *)
Definition loop_guard (i : nat) (timeout : option Z) : bool :=
  match timeout with
  | Some t => (100 * Z.of_nat i <? t)%Z
  | None => false
  end.

Definition loop_measure (i : nat) (timeout : option Z) : nat :=
  match timeout with
  | Some t => Z.to_nat (t - 100 * Z.of_nat i)
  | None => 0
  end.

(** The [for] loop of [waitForElement], from counter [i] on: [true] when it
    left through [break] with [result] set. *)
Equations? wait_loop (timeout : option Z) (sel : value) (i : nat) (w : world)
  : outcome bool * world by wf (loop_measure i timeout) lt :=
  wait_loop timeout sel i w with inspect (loop_guard i timeout) := {
    | exist _ true Hg :=
        (let! el := query i sel in
         match el with
         | Some _ => ret true
         | None => let! _ := sleep 100 in (fun w' => wait_loop timeout sel (S i) w')
         end) w;
    | exist _ false _ := ret false w }.
Proof.
  unfold loop_guard, loop_measure in *. destruct timeout as [t|]; [|done].
  apply Z.ltb_lt in Hg. lia.
Qed.

(** The object literals the handlers return. *)
Definition success_result : value := VObj [("success", VBool true)].
Definition failure_result (why : string) : value :=
  VObj [("success", VBool false); ("error", VStr why)].
Definition error_result (error : exn) : value :=
  VObj [("error", VStr (message error)); ("stack", VStr (stack error))].

(** The [switch] of [executeCommand], inside its [try]: what the handler
    of [cmd.action] does, and the [result] it sets. *)
Definition switch_action (cmd : value) : M world value :=
    (let! action := lift (get_field cmd "action") in
     if str_is action "click" then
       let! sel := lift (get_field cmd "selector") in
       let! el := query 0 sel in
       let! _ := match el with
                 | Some e => let! _ := lift (click (doc 0) e) in log (Clicked e)
                 | None => ret tt
                 end in
       ret success_result
     else if str_is action "getText" then
       let! sel := lift (get_field cmd "selector") in
       let! el := query 0 sel in
       ret (VObj [("text", match el with
                           | Some e => textContent (doc 0) e
                           | None => VUndef
                           end)])
     else if str_is action "getAllText" then
       let! sel := lift (get_field cmd "selector") in
       let! els := lift (querySelectorAll (doc 0) sel) in
       ret (VObj [("texts", VArr (map (textContent (doc 0)) els))])
     else if str_is action "fillInput" then
       let! sel := lift (get_field cmd "selector") in
       let! input := query 0 sel in
       match input with
       | Some e =>
           let! v := lift (get_field cmd "value") in
           let! _ := lift (assign_value (doc 0) e v) in
           let! _ := log (ValueSet e v) in
           let! _ := log (Dispatched e "input") in
           let! _ := log (Dispatched e "change") in
           ret success_result
       | None => ret (failure_result "Element not found")
       end
     else if str_is action "getAttribute" then
       let! sel := lift (get_field cmd "selector") in
       let! el := query 0 sel in
       let! attribute := lift (get_field cmd "attribute") in
       ret (VObj [("value", match el with
                            | Some e => getAttribute (doc 0) e attribute
                            | None => VUndef
                            end)])
     else if str_is action "waitForElement" then
       let! timeout := lift (get_field cmd "timeout") in
       let! sel := lift (get_field cmd "selector") in
       let! found := wait_loop (to_number timeout) sel 0 in
       if found then ret success_result else ret (failure_result "Timeout")
     else if str_is action "custom" then
       try_catch
         (let! code := lift (get_field cmd "code") in
          let! sandboxResult := lift (sandbox code) in
          ret (if truthy sandboxResult then sandboxResult else success_result))
         (fun error => ret (error_result error))
     else ret (VObj [("error", VStr "Unknown action")])).

(** [async function executeCommand(cmd)] *)
Definition executeCommand (cmd : value) : M world value :=
  try_catch (switch_action cmd) (fun error => ret (error_result error)).

(** ** content.js: [checkForCommands] *)

Definition write_cookie (name v : string) : M world unit :=
  modify (fun w => World (set_cookie name v (cookies w)) (dom_log w)).
Definition clear_cookie (name : string) : M world unit :=
  modify (fun w => World (expire_cookie name (cookies w)) (dom_log w)).

(** [commandCookie.split('=')[1]]; a missing part reads as [undefined],
    which [decodeURIComponent] turns into the text "undefined". *)
Definition encoded_part (commandCookie : string) : string :=
  default "undefined" (split_on "="%char commandCookie !! 1%nat).

(** [encodeURIComponent(JSON.stringify(v))] *)
Definition encode_result (v : value) : outcome string :=
  match JSON_stringify v with
  | Return text => Return (encodeURIComponent text)
  | Throw e => Throw e
  end.

(** Lines 134 to 141: parse the command, clear the slot, set the status.
    Execution of the command starts from the state this leaves. *)
Definition take_command (commandCookie : string) : M world value :=
  let! decoded := lift (decodeURIComponent (encoded_part commandCookie)) in
  let! command := lift (JSON_parse decoded) in
  let! _ := clear_cookie COMMAND_COOKIE in
  let! _ := write_cookie STATUS_COOKIE "processing" in
  ret command.

(** Lines 146 to 149: write the result and the final status. *)
Definition write_result (result : value) : M world unit :=
  let! encodedResult := lift (encode_result result) in
  let! _ := write_cookie RESULT_COOKIE encodedResult in
  write_cookie STATUS_COOKIE "done".

(** The [catch] of [checkForCommands]. *)
Definition report_parse_error (error : exn) : M world unit :=
  let errorResult :=
    VObj [("error", VStr "Command parse error"); ("message", VStr (message error))] in
  let! encoded := lift (encode_result errorResult) in
  let! _ := write_cookie RESULT_COOKIE encoded in
  write_cookie STATUS_COOKIE "error".

(** [async function checkForCommands()] *)
Definition checkForCommands : M world unit :=
  let! cookies := gets cookies in
  match find_cookie COMMAND_COOKIE cookies with
  | Some commandCookie =>
      try_catch
        (let! command := take_command commandCookie in
         let! result := executeCommand command in
         write_result result)
        report_parse_error
  | None => ret tt
  end.

End Channel.

(** ** sandbox-bridge.js: the state of a [SandboxBridge] *)

(** One call of [execute] is identified by the promise it returns. *)
Definition call : Type := nat.

(** How a promise was settled. *)
Inductive settlement : Type :=
| Resolved (v : value)
| Rejected (e : exn).

(** The callbacks registered with [setInterval] and [setTimeout]. *)
Inductive timer : Type :=
| ReadyCheck (c : call)                   (* setInterval(..., 50) in execute *)
| ReadyDeadline (c : call)                (* setTimeout(..., 5000) in execute *)
| ExecutionTimeout (c : call) (id : string). (* setTimeout(..., 30000) in execute *)

#[global] Instance timer_eq_dec : EqDecision timer.
Proof. solve_decision. Defined.

(** The call whose closure a timer callback holds. *)
Definition timer_call (t : timer) : call :=
  match t with
  | ReadyCheck c | ReadyDeadline c | ExecutionTimeout c _ => c
  end.

(** [obj[key]]: a numeric index or a property name. *)
Inductive key : Type :=
| Index (n : N)
| Name (s : string).

(** The page's global object graph, which [CUSTOM_QUERY] walks.  [jsobj]
    is whatever a property can hold (objects, functions, primitives). *)
Record Globals (jsobj : Type) : Type := {
  (** [window] *)
  window : jsobj;
  (** [obj === null || obj === undefined] *)
  is_nullish : jsobj -> bool;
  (** [obj[key]] on an object that is not nullish; a getter may throw. *)
  get_property : jsobj -> key -> outcome jsobj;
  (** Whether the structured clone of [postMessage] accepts [obj]: it
      copies primitives, arrays and plain objects of such, and refuses a
      DOM node, a window, a function. *)
  cloneable : jsobj -> bool;
  (** [null] and [undefined] are copied. *)
  nullish_cloneable : forall obj, is_nullish obj = true -> cloneable obj = true
}.
Arguments window {jsobj}.
Arguments is_nullish {jsobj}.
Arguments get_property {jsobj}.
Arguments cloneable {jsobj}.
Arguments nullish_cloneable {jsobj}.

Section Bridge.
Context `{Engine} {elem jsobj : Type}.

(** The [result] of a [DOM_RESULT] message: plain data, or whatever object
    a property path led to. *)
Inductive reply : Type :=
| Plain (v : value)
| Reached (o : jsobj).

(** What the bridge posts to [iframe.contentWindow]. *)
Inductive outgoing : Type :=
| EXECUTE_CODE (code : value) (id : string)
| DOM_RESULT (id : value) (result : reply).

Record bridge : Type := Bridge {
  (** [this.ready] *)
  ready : bool;
  (** [this.pendingExecutions]: id to the [{resolve, reject}] of a call *)
  pendingExecutions : gmap string call;
  (** the promises [execute] returned; a call not in the map is pending *)
  promises : gmap call settlement;
  (** calls suspended at the readiness [await], with the code to send and
      the random suffix their id will get *)
  waiting : gmap call (value * string);
  (** messages posted to the sandbox, oldest first *)
  posted : list outgoing;
  (** the timers registered, each with the time it is due *)
  timers : list (Z * timer);
  (** [Date.now()], in milliseconds *)
  now : Z;
  (** the next promise [execute] creates *)
  next_call : call
}.

(** [new SandboxBridge()] at time [t0]. *)
Definition new_bridge (t0 : Z) : bridge :=
  Bridge false ∅ ∅ ∅ [] [] t0 0.

Definition set_ready (b : bool) (s : bridge) : bridge :=
  Bridge b (pendingExecutions s) (promises s) (waiting s) (posted s) (timers s)
         (now s) (next_call s).
Definition set_pending (p : gmap string call) (s : bridge) : bridge :=
  Bridge (ready s) p (promises s) (waiting s) (posted s) (timers s)
         (now s) (next_call s).
Definition set_promises (p : gmap call settlement) (s : bridge) : bridge :=
  Bridge (ready s) (pendingExecutions s) p (waiting s) (posted s) (timers s)
         (now s) (next_call s).
Definition set_waiting (w : gmap call (value * string)) (s : bridge) : bridge :=
  Bridge (ready s) (pendingExecutions s) (promises s) w (posted s) (timers s)
         (now s) (next_call s).
Definition set_posted (l : list outgoing) (s : bridge) : bridge :=
  Bridge (ready s) (pendingExecutions s) (promises s) (waiting s) l (timers s)
         (now s) (next_call s).
Definition set_timers (l : list (Z * timer)) (s : bridge) : bridge :=
  Bridge (ready s) (pendingExecutions s) (promises s) (waiting s) (posted s) l
         (now s) (next_call s).
Definition set_now (t : Z) (s : bridge) : bridge :=
  Bridge (ready s) (pendingExecutions s) (promises s) (waiting s) (posted s)
         (timers s) t (next_call s).
Definition set_next_call (c : call) (s : bridge) : bridge :=
  Bridge (ready s) (pendingExecutions s) (promises s) (waiting s) (posted s)
         (timers s) (now s) c.

(** [resolve(v)] and [reject(e)] of a call's promise: only the first
    settlement counts. *)
Definition settle (c : call) (how : settlement) (s : bridge) : bridge :=
  match promises s !! c with
  | Some _ => s
  | None => set_promises (<[c := how]> (promises s)) s
  end.

(** A message [m] is on its way to the sandbox: the log records it. *)
Definition postMessage (m : outgoing) (s : bridge) : bridge :=
  set_posted (posted s ++ [m]) s.

(** [setTimeout(f, ms)], and the first arming of [setInterval(f, ms)] *)
Definition set_timer (ms : Z) (t : timer) (s : bridge) : bridge :=
  set_timers (timers s ++ [((now s + ms)%Z, t)]) s.

(** [clearInterval(h)], and the end of a timeout that has fired *)
Definition clear_timer (t : timer) (s : bridge) : bridge :=
  set_timers (filter (fun dt => dt.2 <> t) (timers s)) s.

(** *** The message listener of [setupIframe] *)

(** The double quote inside the selectors of [DOCUMENT_QUERY]. *)
Definition dq : string := String (ascii_of_nat 34) EmptyString.

(** What [DOM_QUERY] reports of a matching element ([className] as it
    reads where it is a string). *)
Definition element_details (pg : Page elem) (el : elem) : value :=
  VObj [("textContent", textContent pg el);
        ("innerHTML", VStr (innerHTML pg el));
        ("value", elem_prop pg el "value");
        ("tagName", elem_prop pg el "tagName");
        ("className", elem_prop pg el "className");
        ("id", elem_prop pg el "id");
        ("attributes", VObj (map (fun a => (a.1, VStr a.2)) (attributes pg el)))].

(** What [DOM_QUERY_ALL] reports of each matching element. *)
Definition element_summary (pg : Page elem) (el : elem) : value :=
  VObj [("textContent", textContent pg el);
        ("innerHTML", VStr (innerHTML pg el));
        ("value", elem_prop pg el "value");
        ("tagName", elem_prop pg el "tagName")].

(** [document.querySelector(sel)?.content] *)
Definition meta_content (pg : Page elem) (sel : string) : outcome value :=
  match querySelector pg (VStr sel) with
  | Return (Some el) => Return (elem_prop pg el "content")
  | Return None => Return VUndef
  | Throw e => Throw e
  end.

(** [document.querySelectorAll(sel).length] *)
Definition count_matches (pg : Page elem) (sel : string) : outcome value :=
  match querySelectorAll pg (VStr sel) with
  | Return els => Return (VNum (Z.of_nat (length els)))
  | Throw e => Throw e
  end.

(** The [docResult] object literal of [DOCUMENT_QUERY].  A document has a
    [body] only under an [html] root, and both are HTML elements: their
    [className] is a string, and all of [docResult] is text and numbers. *)
Definition document_details (pg : Page elem) : M bridge value :=
  let! de := lift (match documentElement pg with
                   | Some el => Return el
                   | None => Throw (TypeError_read VNull "tagName")
                   end) in
  let! bd := lift (match body pg with
                   | Some el => Return el
                   | None => Throw (TypeError_read VNull "className")
                   end) in
  let! description :=
    lift (meta_content pg ("meta[name=" +:+ dq +:+ "description" +:+ dq +:+ "]")) in
  let! keywords :=
    lift (meta_content pg ("meta[name=" +:+ dq +:+ "keywords" +:+ dq +:+ "]")) in
  let! viewport :=
    lift (meta_content pg ("meta[name=" +:+ dq +:+ "viewport" +:+ dq +:+ "]")) in
  let! scripts := lift (count_matches pg "script") in
  let! stylesheets :=
    lift (count_matches pg ("link[rel=" +:+ dq +:+ "stylesheet" +:+ dq +:+ "], style")) in
  let! iframes := lift (count_matches pg "iframe") in
  ret (VObj [("title", document_prop pg "title");
             ("url", location_prop pg "href");
             ("domain", location_prop pg "hostname");
             ("pathname", location_prop pg "pathname");
             ("readyState", document_prop pg "readyState");
             ("documentElement",
               VObj [("tagName", elem_prop pg de "tagName");
                     ("className", elem_prop pg de "className");
                     ("id", elem_prop pg de "id")]);
             ("body",
               VObj [("className", elem_prop pg bd "className");
                     ("id", elem_prop pg bd "id");
                     ("innerHTML", VStr (String.substring 0 500 (innerHTML pg bd)))]);
             ("meta",
               VObj [("description", description);
                     ("keywords", keywords);
                     ("viewport", viewport)]);
             ("cookie", document_prop pg "cookie");
             ("scripts", scripts);
             ("stylesheets", stylesheets);
             ("iframes", iframes)]).

(** [/^\d+$/.test(part)] *)
Definition is_digit (a : ascii) : bool :=
  (48 <=? nat_of_ascii a)%nat && (nat_of_ascii a <=? 57)%nat.
Fixpoint all_digits (s : string) : bool :=
  match s with
  | EmptyString => true
  | String a s' => is_digit a && all_digits s'
  end.
Definition digits_only (part : string) : bool :=
  negb (String.eqb part "") && all_digits part.

(** [parseInt(part)] of a string of digits, most significant first. *)
Fixpoint parse_digits (acc : N) (s : string) : N :=
  match s with
  | EmptyString => acc
  | String a s' => parse_digits (10 * acc + N.of_nat (nat_of_ascii a - 48)) s'
  end.
Definition parseInt (part : string) : N := parse_digits 0 part.

(** The key [obj[...]] is read with for one segment of the path. *)
Definition segment_key (part : string) : key :=
  if digits_only part then Index (parseInt part) else Name part.

(** [for (const part of parts) { if (obj === null || obj === undefined) break; ... }] *)
Fixpoint traverse (g : Globals jsobj) (obj : jsobj) (parts : list string)
  : outcome jsobj :=
  match parts with
  | [] => Return obj
  | part :: rest =>
      if is_nullish g obj then Return obj
      else match get_property g obj (segment_key part) with
           | Return next => traverse g next rest
           | Throw e => Throw e
           end
  end.

(** [queryPath.split('.')]: only a string has the method. *)
Definition split_path (queryPath : value) : outcome (list string) :=
  match queryPath with
  | VStr s => Return (split_on "."%char s)
  | _ => Throw (TypeError_read queryPath "split")
  end.

(** The [try] ... [catch] of [CUSTOM_QUERY]: the value of [result] after it. *)
Definition custom_query (g : Globals jsobj) (queryPath : value) : reply :=
  match split_path queryPath with
  | Return parts =>
      match traverse g (window g) parts with
      | Return obj => Reached obj
      | Throw e => Plain (VObj [("error", VStr (message e))])
      end
  | Throw e => Plain (VObj [("error", VStr (message e))])
  end.

(** [this.pendingExecutions.get(id)]: the keys are strings. *)
Definition pending_get (id : value) (s : bridge) : option call :=
  match id with
  | VStr k => pendingExecutions s !! k
  | _ => None
  end.

(** [this.pendingExecutions.delete(id)] *)
Definition pending_delete (id : value) (s : bridge) : bridge :=
  match id with
  | VStr k => set_pending (delete k (pendingExecutions s)) s
  | _ => s
  end.

(** [event.source !== this.iframe.contentWindow], with the iframe as it is
    when the event is handled.  [event.source] is [null] for a message
    event that was not posted from a window (one a script dispatched), and
    [null !== null] is false. *)
Definition foreign (pg : Page elem) (source : option win) : bool :=
  negb (bool_decide (source = contentWindow pg)).

(** [this.iframe.contentWindow.postMessage(m, '*')] in the listener.  On a
    [null] contentWindow the read of [postMessage] throws a TypeError.
    Otherwise the message is cloned at once, and the call throws a
    DataCloneError when the payload holds what cannot be cloned; [clones]
    tells whether it can be.  Neither is inside a [try]. *)
Definition post (pg : Page elem) (clones : bool) (m : outgoing) : M bridge unit :=
  match contentWindow pg with
  | None => throw (TypeError_read VNull "postMessage")
  | Some _ => if clones then modify (postMessage m) else throw DataCloneError
  end.

(** Whether [domResult] of [DOM_QUERY] can be cloned: it is [null], or an
    object of text and of a plain object of text, but for [className]. *)
Definition details_clone (pg : Page elem) (el : option elem) : bool :=
  match el with
  | Some e => className_string pg e
  | None => true
  end.

(** Whether the [result] of [CUSTOM_QUERY] can be cloned. *)
Definition reply_clones (g : Globals jsobj) (r : reply) : bool :=
  match r with
  | Plain _ => true
  | Reached o => cloneable g o
  end.

(** The listener [setupIframe] registers for [message] events. *)
Definition listener (pg : Page elem) (g : Globals jsobj)
    (source : option win) (data : value) : M bridge unit :=
  if foreign pg source then ret tt else
  let! type := lift (get_field data "type") in
  let! id := lift (get_field data "id") in
  let! result := lift (get_field data "result") in
  let! error := lift (get_field data "error") in
  let! selector := lift (get_field data "selector") in
  if str_is type "SANDBOX_READY" then
    modify (set_ready true)
  else if str_is type "DOM_QUERY" then
    let! el := lift (querySelector pg selector) in
    let domResult := match el with
                     | Some e => element_details pg e
                     | None => VNull
                     end in
    post pg (details_clone pg el) (DOM_RESULT id (Plain domResult))
  else if str_is type "DOM_QUERY_ALL" then
    let! elements := lift (querySelectorAll pg selector) in
    let domResults := VArr (map (element_summary pg) elements) in
    post pg true (DOM_RESULT id (Plain domResults))
  else if str_is type "DOCUMENT_QUERY" then
    let! docResult := document_details pg in
    post pg true (DOM_RESULT id (Plain docResult))
  else if str_is type "CUSTOM_QUERY" then
    let! queryPath := lift (get_field data "queryPath") in
    let result := custom_query g queryPath in
    post pg (reply_clones g result) (DOM_RESULT id result)
  else if str_is type "EXECUTION_RESULT" || str_is type "EXECUTION_ERROR" then
    let! pending := gets (pending_get id) in
    match pending with
    | Some c =>
        let! _ := modify (pending_delete id) in
        if str_is type "EXECUTION_RESULT" then
          modify (settle c (Resolved result))
        else
          let! m := lift (get_field error "message") in
          modify (settle c (Rejected (new_Error (error_text m))))
    | None => ret tt
    end
  else ret tt.

(** *** [execute(code)] *)

(** [`exec_${Date.now()}_${Math.random().toString(36).substr(2, 9)}`];
    [rnd] is the random suffix. *)
Definition gen_id (t : Z) (rnd : string) : string :=
  "exec_" +:+ pretty t +:+ "_" +:+ rnd.

(** Lines 215 to 236: generate the id, post the code, record the pending
    execution and arm the 30 second timeout.  The code is a string, which
    is cloned; calls are modelled with the sandbox iframe in the document
    when they are dispatched (on a [null] contentWindow line 219 throws
    and the promise of [execute] is rejected with that TypeError). *)
Definition dispatch (c : call) (code : value) (rnd : string) (s : bridge) : bridge :=
  let id := gen_id (now s) rnd in
  let s := postMessage (EXECUTE_CODE code id) s in
  let s := set_pending (<[id := c]> (pendingExecutions s)) s in
  set_timer 30000 (ExecutionTimeout c id) s.

(** What follows the readiness [await] (lines 211 to 236), run once for a
    call that is still suspended there. *)
Definition resume (c : call) (s : bridge) : bridge :=
  match waiting s !! c with
  | Some (code, rnd) =>
      let s := set_waiting (delete c (waiting s)) s in
      if negb (ready s) then settle c (Rejected (new_Error "Sandbox not ready")) s
      else dispatch c code rnd s
  | None => s
  end.

(** [execute(code)] up to its first suspension; returns the promise. *)
Definition execute (code : value) (rnd : string) (s : bridge) : call * bridge :=
  let c := next_call s in
  let s := set_next_call (S c) s in
  if negb (ready s) then
    let s := set_waiting (<[c := (code, rnd)]> (waiting s)) s in
    let s := set_timer 50 (ReadyCheck c) s in
    let s := set_timer 5000 (ReadyDeadline c) s in
    (c, s)
  else (c, dispatch c code rnd s).

(** *** Timers *)

(** The callback of a timer. *)
Definition callback (t : timer) (s : bridge) : bridge :=
  match t with
  | ReadyCheck c =>
      if ready s then resume c (clear_timer (ReadyCheck c) s) else s
  | ReadyDeadline c =>
      resume c (clear_timer (ReadyCheck c) s)
  | ExecutionTimeout c id =>
      match pendingExecutions s !! id with
      | Some _ =>
          let s := set_pending (delete id (pendingExecutions s)) s in
          settle c (Rejected (new_Error "Execution timeout")) s
      | None => s
      end
  end.

(** A timer that is due runs its callback, unless it has been cleared in
    the meantime; an interval is armed again first. *)
Definition fire (s : bridge) (t : timer) : bridge :=
  if decide ((now s, t) ∈ timers s) then
    let s := clear_timer t s in
    let s := match t with
             | ReadyCheck _ => set_timer 50 t s
             | _ => s
             end in
    callback t s
  else s.

(** The timers due at time [t], in the order they were registered. *)
Definition due_at (t : Z) (l : list (Z * timer)) : list timer :=
  map snd (filter (fun dt => dt.1 = t) l).

(** One millisecond passes: the clock advances and the timers now due fire. *)
Definition tick (s : bridge) : bridge :=
  let s := set_now (now s + 1) s in
  fold_left fire (due_at (now s) (timers s)) s.

Fixpoint ticks (n : nat) (s : bridge) : bridge :=
  match n with
  | O => s
  | S n' => ticks n' (tick s)
  end.

(** *** The bridge in its event loop *)

Inductive event : Type :=
| Elapse (ms : Z)
| Deliver (pg : Page elem) (g : Globals jsobj) (source : option win) (data : value)
| Call (code : value) (rnd : string).

Definition step (s : bridge) (e : event) : bridge :=
  match e with
  | Elapse ms => ticks (Z.to_nat ms) s
  | Deliver pg g source data => (listener pg g source data s).2
  | Call code rnd => (execute code rnd s).2
  end.

Definition run (evs : list event) (s : bridge) : bridge := fold_left step evs s.

(** The time a list of events takes. *)
Definition elapsed (evs : list event) : Z :=
  foldr (fun e acc => match e with
                      | Elapse ms => (Z.max 0 ms + acc)%Z
                      | _ => acc
                      end) 0%Z evs.

End Bridge.

(** How [await promise] ends for the caller of [execute]: [None] while the
    promise is pending. *)
Definition settled_as (p : option settlement) : option (outcome value) :=
  match p with
  | Some (Resolved v) => Some (Return v)
  | Some (Rejected e) => Some (Throw e)
  | None => None
  end.

(** ** content.js: [executeCustomCode] *)

(** What [executeCustomCode] does to the extension runtime, in order. *)
Inductive runtime_effect : Type :=
| Sent (msg : value)       (* chrome.runtime.sendMessage(msg, callback) *)
| Logged (line : string)   (* console.log(line) *)
| Paused (ms : Z).         (* await new Promise(r => setTimeout(r, ms)) *)

Section Runtime.

(** [sendMessage n msg] is how the promise around the [n]-th call of
    [chrome.runtime.sendMessage] settles: [Return response] when the
    callback finds no [chrome.runtime.lastError], [Throw] of
    [new Error(chrome.runtime.lastError.message)] when it does (or of
    whatever the call itself throws). *)
Variable sendMessage : nat -> value -> outcome value.

Definition send_message (n : nat) (msg : value) : M (list runtime_effect) value :=
  let! _ := modify (fun l => l ++ [Sent msg]) in lift (sendMessage n msg).

(** [`Background connection failed, retry ${attempt + 1}/3...`] *)
Definition retry_line (attempt : nat) : string :=
  "Background connection failed, retry " +:+ pretty (attempt + 1)%nat +:+ "/3...".

(** The object the last [catch] returns. *)
Definition connection_failure (error : exn) : value :=
  VObj [("error", VStr "Background script connection failed");
        ("message", VStr (message error));
        ("hint", VStr "Try reloading the extension or page")].

(** The [for] loop from counter [attempt] on; [fuel] bounds the iterations
    left.  Leaving the loop through its guard returns [undefined]. *)
Fixpoint retry_from (fuel attempt : nat) (code : value) : M (list runtime_effect) value :=
  match fuel with
  | O => ret VUndef
  | S fuel' =>
      if (attempt <? 3)%nat then
        try_catch
          (send_message attempt (VObj [("type", VStr "EXECUTE_CUSTOM"); ("code", code)]))
          (fun error =>
             if (attempt <? 2)%nat then
               let! _ := modify (fun l => l ++ [Logged (retry_line attempt)]) in
               let! _ := modify (fun l => l ++ [Paused 100]) in
               retry_from fuel' (S attempt) code
             else ret (connection_failure error))
      else ret VUndef
  end.

(** [async function executeCustomCode(code)]: the counter runs from 0 and
    stops at 3, so three iterations are all there can be. *)
Definition executeCustomCode (code : value) : M (list runtime_effect) value :=
  retry_from 3 0 code.

End Runtime.

(** ** background.js *)

(** The service worker: [lastActivity], the clock, and what it has done. *)
Record worker : Type := Worker {
  (** [let lastActivity] *)
  lastActivity : Z;
  (** [Date.now()], in milliseconds *)
  clock : Z;
  (** when the callback of [setInterval(..., 15000)] runs next *)
  next_check : Z;
  (** what [sendResponse] was called with, oldest first *)
  responses : list value;
  (** the times of [chrome.storage.local.get('keepalive', ...)] *)
  storage_reads : list Z
}.

(** The script has just been loaded at time [t0]. *)
Definition start_worker (t0 : Z) : worker := Worker t0 t0 (t0 + 15000) [] [].

Section Background.
Context `{Engine}.

(** The listener of [chrome.runtime.onMessage]; its return value tells the
    runtime whether a response is to be waited for. *)
Definition onMessage (msg : value) : M worker bool :=
  let! _ := modify (fun w => Worker (clock w) (clock w) (next_check w)
                               (responses w) (storage_reads w)) in
  let! type := lift (get_field msg "type") in
  if str_is type "KEEPALIVE" then
    let! _ := modify (fun w => Worker (lastActivity w) (clock w) (next_check w)
                                 (responses w ++ [VObj [("status", VStr "alive")]])
                                 (storage_reads w)) in
    ret true
  else ret false.

(** The callback of the interval. *)
Definition self_keepalive (w : worker) : worker :=
  let timeSinceActivity := (clock w - lastActivity w)%Z in
  if (timeSinceActivity <? 25000)%Z then
    Worker (lastActivity w) (clock w) (next_check w) (responses w)
           (storage_reads w ++ [clock w])
  else w.

(** One millisecond passes; the interval fires when it is due and is armed
    again 15 seconds later. *)
Definition worker_tick (w : worker) : worker :=
  let w := Worker (lastActivity w) (clock w + 1) (next_check w)
             (responses w) (storage_reads w) in
  if (clock w =? next_check w)%Z then
    self_keepalive (Worker (lastActivity w) (clock w) (next_check w + 15000)
                      (responses w) (storage_reads w))
  else w.

Fixpoint worker_ticks (n : nat) (w : worker) : worker :=
  match n with
  | O => w
  | S n' => worker_ticks n' (worker_tick w)
  end.

(** What happens to the worker: time passes, or a message arrives. *)
Inductive worker_event : Type :=
| Passes (ms : Z)
| Receives (msg : value).

Definition worker_step (w : worker) (e : worker_event) : worker :=
  match e with
  | Passes ms => worker_ticks (Z.to_nat ms) w
  | Receives msg => (onMessage msg w).2
  end.

Definition worker_run (evs : list worker_event) (w : worker) : worker :=
  fold_left worker_step evs w.

End Background.

(** ** A reference engine

    An [Engine] to run the scripts on concrete inputs: percent coding of
    bytes, a serialiser for [value], and a parser for the JSON the
    controller writes (objects of strings, integers, booleans and null,
    without escapes, nesting or white space; anything else is rejected,
    which is narrower than [JSON.parse]). *)

Definition hex_value (a : ascii) : option N :=
  let n := N_of_ascii a in
  if (48 <=? n)%N && (n <=? 57)%N then Some (n - 48)%N
  else if (65 <=? n)%N && (n <=? 70)%N then Some (n - 55)%N
  else if (97 <=? n)%N && (n <=? 102)%N then Some (n - 87)%N
  else None.

Definition hex_digit (n : N) : ascii :=
  ascii_of_N (if (n <? 10)%N then n + 48 else n + 55)%N.

Definition URIError : exn := Exn "URI malformed" "URIError: URI malformed".

(** [%XY] becomes a byte; a [%] without two hex digits is malformed. *)
Fixpoint percent_decode (s : string) : outcome string :=
  match s with
  | EmptyString => Return EmptyString
  | String a rest =>
      if Ascii.eqb a "%" then
        match rest with
        | String h (String l rest') =>
            match hex_value h, hex_value l, percent_decode rest' with
            | Some x, Some y, Return r => Return (String (ascii_of_N (16 * x + y)) r)
            | Some _, Some _, Throw e => Throw e
            | _, _, _ => Throw URIError
            end
        | _ => Throw URIError
        end
      else match percent_decode rest with
           | Return r => Return (String a r)
           | Throw e => Throw e
           end
  end.

(** [A-Z a-z 0-9 - _ . ! ~ * ' ( )] stay as they are. *)
Definition unreserved (a : ascii) : bool :=
  let n := N_of_ascii a in
  ((65 <=? n)%N && (n <=? 90)%N) || ((97 <=? n)%N && (n <=? 122)%N)
  || ((48 <=? n)%N && (n <=? 57)%N)
  || existsb (N.eqb n) [45; 95; 46; 33; 126; 42; 39; 40; 41]%N.

Fixpoint percent_encode (s : string) : string :=
  match s with
  | EmptyString => EmptyString
  | String a rest =>
      if unreserved a then String a (percent_encode rest)
      else let n := N_of_ascii a in
           String "%" (String (hex_digit (n / 16)) (String (hex_digit (n mod 16))
                                                           (percent_encode rest)))
  end.

Definition backslash : ascii := ascii_of_nat 92.
Definition quote : ascii := ascii_of_nat 34.

(** A string literal of JSON: quotes and backslashes are escaped. *)
Fixpoint json_escape (s : string) : string :=
  match s with
  | EmptyString => EmptyString
  | String a rest =>
      if Ascii.eqb a quote || Ascii.eqb a backslash
      then String backslash (String a (json_escape rest))
      else String a (json_escape rest)
  end.
Definition json_string (s : string) : string :=
  String quote (json_escape s) +:+ String quote EmptyString.

Definition join_with (sep : string) (l : list string) : string :=
  String.concat sep l.

(** [JSON.stringify]: a field that is [undefined] is left out, an array
    item that is [undefined] is written [null]. *)
Fixpoint json_text (v : value) : string :=
  match v with
  | VUndef => "undefined"
  | VNull => "null"
  | VBool b => if b then "true" else "false"
  | VNum n => pretty n
  | VStr s => json_string s
  | VArr items =>
      "[" +:+ join_with ","
        ((fix go (l : list value) : list string :=
            match l with
            | [] => []
            | VUndef :: l' => "null" :: go l'
            | x :: l' => json_text x :: go l'
            end) items) +:+ "]"
  | VObj fields =>
      "{" +:+ join_with ","
        ((fix go (l : list (string * value)) : list string :=
            match l with
            | [] => []
            | (_, VUndef) :: l' => go l'
            | (k, x) :: l' => (json_string k +:+ ":" +:+ json_text x) :: go l'
            end) fields) +:+ "}"
  end.

Definition SyntaxError : exn :=
  Exn "Unexpected token in JSON" "SyntaxError: Unexpected token in JSON".

(** The text of a string literal up to its closing quote, and what follows. *)
Fixpoint read_string (s : string) : option (string * string) :=
  match s with
  | EmptyString => None
  | String a rest =>
      if Ascii.eqb a quote then Some (EmptyString, rest)
      else if Ascii.eqb a backslash then None
      else match read_string rest with
           | Some (text, rest') => Some (String a text, rest')
           | None => None
           end
  end.

(** The digits a string starts with, and what follows. *)
Fixpoint read_digits (s : string) : string * string :=
  match s with
  | String a rest =>
      if is_digit a then let (ds, rest') := read_digits rest in (String a ds, rest')
      else (EmptyString, s)
  | EmptyString => (EmptyString, EmptyString)
  end.

(** One value that is not an object or an array. *)
Definition read_scalar (s : string) : option (value * string) :=
  match s with
  | String a rest =>
      if Ascii.eqb a quote then
        match read_string rest with
        | Some (text, rest') => Some (VStr text, rest')
        | None => None
        end
      else if Ascii.eqb a "-" then
        match read_digits rest with
        | (EmptyString, _) => None
        | (ds, rest') => Some (VNum (- Z.of_N (parseInt ds)), rest')
        end
      else if is_digit a then
        let (ds, rest') := read_digits s in Some (VNum (Z.of_N (parseInt ds)), rest')
      else if String.prefix "true" s then Some (VBool true, String.substring 4 (String.length s - 4) s)
      else if String.prefix "false" s then Some (VBool false, String.substring 5 (String.length s - 5) s)
      else if String.prefix "null" s then Some (VNull, String.substring 4 (String.length s - 4) s)
      else None
  | EmptyString => None
  end.

(** The members of an object after its opening brace, up to the closing
    one.  [fuel] bounds the number of members. *)
Fixpoint read_members (fuel : nat) (s : string) : option (list (string * value)) :=
  match fuel with
  | O => None
  | S fuel' =>
      match s with
      | String a rest =>
          if Ascii.eqb a quote then
            match read_string rest with
            | Some (k, String colon rest') =>
                if Ascii.eqb colon ":" then
                  match read_scalar rest' with
                  | Some (v, String sep rest'') =>
                      if Ascii.eqb sep "}" then
                        match rest'' with
                        | EmptyString => Some [(k, v)]
                        | _ => None
                        end
                      else if Ascii.eqb sep "," then
                        match read_members fuel' rest'' with
                        | Some more => Some ((k, v) :: more)
                        | None => None
                        end
                      else None
                  | _ => None
                  end
                else None
            | _ => None
            end
          else None
      | EmptyString => None
      end
  end.

Definition parse_json (s : string) : outcome value :=
  match s with
  | String a rest =>
      if Ascii.eqb a "{" then
        if String.eqb rest "}" then Return (VObj [])
        else match read_members (String.length s) rest with
             | Some fields => Return (VObj fields)
             | None => Throw SyntaxError
             end
      else match read_scalar s with
           | Some (v, EmptyString) => Return v
           | _ => Throw SyntaxError
           end
  | EmptyString => Throw SyntaxError
  end.

#[export] Instance reference_engine : Engine := {|
  decodeURIComponent := percent_decode;
  JSON_parse := parse_json;
  JSON_stringify v := Return (json_text v);
  encodeURIComponent := percent_encode;
  Error_stack m := "Error: " +:+ m;
  TypeError_read v k :=
    Exn ("Cannot read properties of " +:+ json_text v +:+ " (reading '" +:+ k +:+ "')")
        "TypeError";
  ToNumber_object v :=
    match v with
    | VStr s => if digits_only s then Some (Z.of_N (parseInt s)) else None
    | _ => None
    end;
  ToString_other v := json_text v;
  DataCloneError :=
    Exn "Failed to execute 'postMessage' on 'Window': The object could not be cloned."
        "DataCloneError";
  JSON_stringify_flat k1 s1 k2 s2 := ex_intro _ _ eq_refl
|}.

(** ** A reference page

    Four elements: a button [#go] (element 1), an input [#name]
    (element 2), a banner [#late] (element 3) that is added to the
    document after two sleeps of a handler, and an SVG drawing [#icon]
    (element 4).  The empty selector does not parse.  The sandbox iframe
    is in the document and its window is [the_sandbox]. *)

(** The sandbox iframe's window. *)
Definition the_sandbox : win := 7.

Definition DOMSyntaxError : exn :=
  Exn "Failed to execute 'querySelector' on 'Document': The provided selector is empty."
      "SyntaxError".

Definition reference_select (n : nat) (sel : value) : outcome (option nat) :=
  match sel with
  | VStr s =>
      if String.eqb s "" then Throw DOMSyntaxError
      else if String.eqb s "#go" then Return (Some 1%nat)
      else if String.eqb s "#name" then Return (Some 2%nat)
      else if String.eqb s "#late" then Return (if (2 <=? n)%nat then Some 3%nat else None)
      else if String.eqb s "#icon" then Return (Some 4%nat)
      else Return None
  | _ => Return None
  end.

Definition reference_page (n : nat) : Page nat := {|
  querySelector := reference_select n;
  querySelectorAll sel :=
    match reference_select n sel with
    | Return (Some el) => Return [el]
    | Return None => Return []
    | Throw e => Throw e
    end;
  textContent el := VStr (if (el =? 1)%nat then "Go" else "");
  getAttribute el name := if str_is name "id" then VStr "x" else VNull;
  assign_value el v := Return tt;
  click el :=
    if (el =? 4)%nat then Throw (Exn "el.click is not a function" "TypeError")
    else Return tt;
  innerHTML el := if (el =? 1)%nat then "Go" else "";
  elem_prop el k := if String.eqb k "tagName" then VStr "BUTTON" else VStr "";
  className_string el := negb (el =? 4)%nat;
  attributes el := [("id", "x")];
  document_prop k := VStr "";
  location_prop k := VStr "";
  documentElement := Some 0%nat;
  body := Some 0%nat;
  contentWindow := Some the_sandbox
|}.


(** A store whose cookies all belong to the host and live under the path
    [/]. *)
Definition root_jar (l : list string) : jar := map (fun row => Cookie row None "/") l.

(** The global object graph of the reference page: object 0 is [window],
    [window.document] is object 1, [document.title] is object 2 (a
    string), [window.frames] is object 3, whose first frame (object 4) is
    cross-origin: reading its [document] throws.  Object 9 is
    [undefined].  Of these only the string and [undefined] can be
    cloned. *)
Definition SecurityError : exn :=
  Exn "Blocked a frame from accessing a cross-origin frame." "SecurityError".

Lemma reference_nullish_cloneable (o : nat) :
  (o =? 9)%nat = true -> ((o =? 2)%nat || (o =? 9)%nat) = true.
Proof. intros ->. apply orb_true_r. Qed.

Definition reference_globals : Globals nat := {|
  window := 0%nat;
  is_nullish o := (o =? 9)%nat;
  get_property o k :=
    match o, k with
    | 0%nat, Name "document" => Return 1%nat
    | 0%nat, Name "frames" => Return 3%nat
    | 1%nat, Name "title" => Return 2%nat
    | 3%nat, Index 0%N => Return 4%nat
    | 4%nat, Name "document" => Throw SecurityError
    | _, _ => Return 9%nat
    end;
  cloneable o := (o =? 2)%nat || (o =? 9)%nat;
  nullish_cloneable := reference_nullish_cloneable
|}.

(** * Properties *)

(** ** Strings and the cookie store *)

Fixpoint has_char (c : ascii) (s : string) : bool :=
  match s with
  | EmptyString => false
  | String a s' => Ascii.eqb a c || has_char c s'
  end.

Lemma append_cons a (s t : string) : String a s +:+ t = String a (s +:+ t).
Proof. reflexivity. Qed.

Lemma append_nil (t : string) : "" +:+ t = t.
Proof. reflexivity. Qed.

Lemma split_on_name c n rest :
  has_char c n = false ->
  split_on c (n +:+ String c rest) = n :: split_on c rest.
Proof.
  induction n as [|a n IH]; simpl.
  - intros _. by rewrite Ascii.eqb_refl.
  - intros Hn. apply orb_false_elim in Hn as [Ha Hn].
    rewrite Ha, (IH Hn). reflexivity.
Qed.

Lemma cookie_name_row n v :
  has_char "=" n = false -> cookie_name (n +:+ "=" +:+ v) = n.
Proof.
  intros Hn. unfold cookie_name.
  change ("=" +:+ v) with (String "=" v).
  by rewrite split_on_name.
Qed.

Lemma prefix_split p s :
  String.prefix p s = true -> exists rest, s = p +:+ rest.
Proof.
  revert s. induction p as [|a p IH]; intros s.
  - intros _. by exists s.
  - destruct s as [|b s]; simpl; [done|].
    destruct (ascii_dec a b) as [->|]; [|done].
    intros Hp. destruct (IH _ Hp) as [rest ->]. by exists rest.
Qed.

Lemma prefix_append p rest : String.prefix p (p +:+ rest) = true.
Proof.
  induction p as [|a p IH]; [by destruct rest|].
  rewrite append_cons. simpl. by destruct (ascii_dec a a).
Qed.

Lemma append_assoc (a b c : string) : (a +:+ b) +:+ c = a +:+ b +:+ c.
Proof.
  induction a as [|x a IH]; [done|].
  rewrite !append_cons. by rewrite IH.
Qed.

(** A row that starts with [name=] is the cookie of that name. *)
Lemma startsWith_name row n :
  has_char "=" n = false ->
  startsWith row (n +:+ "=") = true -> cookie_name row = n.
Proof.
  intros Hn Hp. destruct (prefix_split _ _ Hp) as [rest ->].
  rewrite append_assoc. by apply cookie_name_row.
Qed.

Lemma startsWith_row n v : startsWith (n +:+ "=" +:+ v) (n +:+ "=") = true.
Proof. unfold startsWith. rewrite <- append_assoc. apply prefix_append. Qed.

(** Every cookie of the name [name] is one of the host, stored under the
    path [/]. *)
Definition rooted (name : string) (j : jar) : bool :=
  forallb (fun c => negb (String.eqb (cookie_name (cookie_row c)) name)
                    || root_scope c) j.

(** The row of the cookie [name] of the host under the path [/]: what a
    reader of that cookie gets. *)
Definition read_root (name : string) (j : jar) : option string :=
  option_map cookie_row (List.find (at_root name) j).

Lemma at_root_written n v :
  has_char "=" n = false -> at_root n (Cookie (n +:+ "=" +:+ v) None "/") = true.
Proof.
  intros Hn. unfold at_root. simpl. rewrite cookie_name_row by done.
  by rewrite String.eqb_refl.
Qed.

Lemma at_root_other n n' v :
  has_char "=" n' = false -> n <> n' ->
  at_root n (Cookie (n' +:+ "=" +:+ v) None "/") = false.
Proof.
  intros Hn Hne. unfold at_root. simpl. rewrite cookie_name_row by done.
  apply andb_false_iff. left. apply String.eqb_neq. congruence.
Qed.

Lemma at_root_name n n' c : at_root n c = true -> at_root n' c = true -> n = n'.
Proof.
  unfold at_root. intros [H1 _]%andb_true_iff [H2 _]%andb_true_iff.
  apply String.eqb_eq in H1, H2. congruence.
Qed.


(** A cookie of that name under another path outlives the expiry. *)
Lemma find_cookie_expire_elsewhere n c j :
  at_root n c = false ->
  startsWith (cookie_row c) (n +:+ "=") = true ->
  find_cookie n (expire_cookie n (c :: j)) = Some (cookie_row c).
Proof.
  intros Hroot Hp. unfold find_cookie, expire_cookie, rows.
  rewrite filter_cons, decide_True by done. simpl. by rewrite Hp.
Qed.

Lemma read_root_set n v j :
  has_char "=" n = false ->
  read_root n (set_cookie n v j) = Some (n +:+ "=" +:+ v).
Proof.
  intros Hn. unfold read_root.
  induction j as [|c j IH]; simpl.
  - by rewrite at_root_written.
  - destruct (at_root n c) eqn:Hc; simpl.
    + by rewrite at_root_written.
    + by rewrite Hc.
Qed.

Lemma read_root_set_other n n' v j :
  has_char "=" n' = false -> n <> n' ->
  read_root n (set_cookie n' v j) = read_root n j.
Proof.
  intros Hn' Hne. unfold read_root.
  induction j as [|c j IH]; simpl.
  - by rewrite at_root_other.
  - destruct (at_root n' c) eqn:Hc; simpl.
    + rewrite at_root_other by done.
      destruct (at_root n c) eqn:Hc'; [|done].
      by destruct (Hne (at_root_name _ _ _ Hc' Hc)).
    + destruct (at_root n c); [done|]. apply IH.
Qed.

Lemma find_cookie_set_other n n' v j :
  has_char "=" n = false -> has_char "=" n' = false -> n <> n' ->
  find_cookie n (set_cookie n' v j) = find_cookie n j.
Proof.
  intros Hn Hn' Hne. unfold find_cookie, rows.
  assert (Hnew : startsWith (n' +:+ "=" +:+ v) (n +:+ "=") = false).
  { destruct (startsWith _ _) eqn:Hp; [|done].
    apply startsWith_name in Hp; [|done].
    rewrite cookie_name_row in Hp by done. congruence. }
  induction j as [|c j IH]; simpl.
  - by rewrite Hnew.
  - destruct (at_root n' c) eqn:Hc; simpl.
    + rewrite Hnew. apply andb_true_iff in Hc as [Hc _]. apply String.eqb_eq in Hc.
      destruct (startsWith (cookie_row c) (n +:+ "=")) eqn:Hp; [|done].
      apply startsWith_name in Hp; [|done]. congruence.
    + by rewrite IH.
Qed.

Lemma find_cookie_expire_other n n' j :
  has_char "=" n = false -> n <> n' ->
  find_cookie n (expire_cookie n' j) = find_cookie n j.
Proof.
  intros Hn Hne. unfold find_cookie, expire_cookie, rows.
  induction j as [|c j IH]; [done|].
  rewrite filter_cons. case_decide as Hc; simpl.
  - by rewrite IH.
  - rewrite IH. destruct (startsWith (cookie_row c) (n +:+ "=")) eqn:Hp; [|done].
    apply startsWith_name in Hp; [|done].
    apply not_false_is_true, andb_true_iff in Hc as [Hc _].
    apply String.eqb_eq in Hc. congruence.
Qed.

Lemma rooted_set n n' v j : rooted n j = true -> rooted n (set_cookie n' v j) = true.
Proof.
  unfold rooted. induction j as [|c j IH]; simpl.
  - intros _. by rewrite orb_true_r.
  - intros [Hc Hj]%andb_true_iff. destruct (at_root n' c); simpl.
    + by rewrite Hj, orb_true_r.
    + by rewrite Hc, IH.
Qed.

(** ** The command channel *)

Create HintDb keeps.

(** [ceil(t / 100)] *)
Definition ceil_div100 (t : Z) : Z := (- ((- t) / 100))%Z.

(** The number of times the loop of [waitForElement] can run. *)
Definition max_attempts (timeout : option Z) : nat :=
  match timeout with
  | Some t => Z.to_nat (ceil_div100 t)
  | None => 0
  end.

Lemma ceil_div100_spec t :
  (100 * (ceil_div100 t - 1) < t <= 100 * ceil_div100 t)%Z.
Proof.
  unfold ceil_div100.
  pose proof (Z.div_mod (- t) 100 ltac:(lia)).
  pose proof (Z.mod_pos_bound (- t) 100 ltac:(lia)). lia.
Qed.

Lemma loop_guard_attempts i timeout :
  loop_guard i timeout = true <-> i < max_attempts timeout.
Proof.
  unfold loop_guard, max_attempts. destruct timeout as [t|].
  - pose proof (ceil_div100_spec t). rewrite Z.ltb_lt. lia.
  - split; [done|lia].
Qed.

Section ChannelFacts.
Context `{Engine} {elem : Type}.
Variable doc : nat -> Page elem.
Variable sandbox : value -> outcome value.

(** A statement sequence that leaves the cookie store alone. *)
Definition keeps_cookies {A} (m : M (@world elem) A) : Prop :=
  forall w, cookies (m w).2 = cookies w.

Lemma keeps_ret {A} (a : A) : keeps_cookies (ret a).
Proof. by intros w. Qed.

Lemma keeps_lift {A} (o : outcome A) : keeps_cookies (lift o).
Proof. by intros w. Qed.

Lemma keeps_log e : keeps_cookies (log e).
Proof. by intros w. Qed.

Lemma keeps_bind {A B} (m : M (@world elem) A) (k : A -> M (@world elem) B) :
  keeps_cookies m -> (forall a, keeps_cookies (k a)) -> keeps_cookies (bind m k).
Proof.
  intros Hm Hk w. unfold bind. specialize (Hm w).
  destruct (m w) as [[a|e] w1]; simpl in *; [|done].
  by rewrite Hk.
Qed.

Lemma keeps_try_catch {A} (m : M (@world elem) A) (h : exn -> M (@world elem) A) :
  keeps_cookies m -> (forall e, keeps_cookies (h e)) -> keeps_cookies (try_catch m h).
Proof.
  intros Hm Hh w. unfold try_catch. specialize (Hm w).
  destruct (m w) as [[a|e] w1]; simpl in *; [done|].
  by rewrite Hh.
Qed.

Lemma keeps_query n sel : keeps_cookies (query doc n sel).
Proof. apply keeps_bind; [apply keeps_log|intros; apply keeps_lift]. Qed.

(** The loop body, unfolded once. *)
Lemma wait_loop_step timeout sel i w :
  wait_loop doc timeout sel i w =
  if loop_guard i timeout then
    (let! el := query doc i sel in
     match el with
     | Some _ => ret true
     | None => let! _ := sleep 100 in wait_loop doc timeout sel (S i)
     end) w
  else ret false w.
Proof.
  simp wait_loop. generalize (inspect (loop_guard i timeout)). intros [b Hg].
  destruct b; simp wait_loop; rewrite Hg; reflexivity.
Qed.

Lemma loop_measure_step i timeout :
  loop_guard i timeout = true -> loop_measure (S i) timeout < loop_measure i timeout.
Proof.
  unfold loop_guard, loop_measure. destruct timeout as [t|]; [|done].
  intros Hg%Z.ltb_lt. lia.
Qed.

Lemma keeps_wait_loop timeout sel i : keeps_cookies (wait_loop doc timeout sel i).
Proof.
  remember (loop_measure i timeout) as n eqn:Hn.
  revert i Hn. induction (lt_wf n) as [n _ IH]. intros i -> w.
  rewrite wait_loop_step. destruct (loop_guard i timeout) eqn:Hg; [|done].
  unfold bind at 1. pose proof (keeps_query i sel w) as Hq.
  destruct (query doc i sel w) as [[[el|]|e] w1]; simpl in *; try done.
  unfold bind, sleep, log, modify. simpl.
  rewrite (IH _ (loop_measure_step _ _ Hg) (S i) eq_refl). done.
Qed.

#[local] Hint Resolve keeps_ret keeps_lift keeps_log keeps_query keeps_wait_loop : keeps.

Ltac keeps :=
  repeat first
    [ apply keeps_bind; [|intros ?]
    | apply keeps_try_catch; [|intros ?]
    | progress eauto with keeps
    | match goal with
      | |- keeps_cookies (if ?b then _ else _) => destruct b
      | |- keeps_cookies (match ?x with _ => _ end) => destruct x
      end ].

(** No handler writes a cookie. *)
Lemma executeCommand_cookies cmd : keeps_cookies (executeCommand doc sandbox cmd).
Proof. unfold executeCommand, switch_action. keeps. Qed.

(** [executeCommand] catches whatever its handlers throw. *)
Lemma executeCommand_returns cmd w :
  exists result, (executeCommand doc sandbox cmd w).1 = Return result.
Proof.
  unfold executeCommand, switch_action, try_catch.
  destruct (bind _ _ w) as [[r|e] w1]; simpl; eauto.
Qed.

(** *** The command slot *)

Definition slot_empty (w : @world elem) : Prop :=
  find_cookie COMMAND_COOKIE (cookies w) = None.








(** A poll that finds the slot empty does nothing. *)
Lemma checkForCommands_idle w :
  slot_empty w -> checkForCommands doc sandbox w = (Return tt, w).
Proof.
  intros Hw. unfold checkForCommands, bind, gets. by rewrite Hw.
Qed.

(** From a poll that found [row], what is left to run once the command
    is parsed. *)
Definition run_command (cmd : value) : M (@world elem) unit :=
  try_catch
    (let! result := executeCommand doc sandbox cmd in write_result result)
    report_parse_error.



(** *** The handlers *)

(** C10.  A [click] whose selector matches no element still answers
    [{success: true}]: the document is queried once, nothing is clicked and
    no error is reported. *)
Theorem click_missing_element fields w :
  assoc "action" fields = VStr "click" ->
  querySelector (doc 0) (assoc "selector" fields) = Return None ->
  executeCommand doc sandbox (VObj fields) w =
    (Return success_result,
     World (cookies w) (dom_log w ++ [Queried (assoc "selector" fields)])).
Proof.
  intros Haction Hnone.
  unfold executeCommand, switch_action, try_catch, bind at 1, lift. simpl. rewrite Haction. simpl.
  unfold bind at 1. simpl. unfold bind at 1, query, bind at 1, log, modify, lift.
  simpl. rewrite Hnone. reflexivity.
Qed.

(** The [custom] action, by how [execute] settles. *)
Lemma custom_outcome fields w :
  assoc "action" fields = VStr "custom" ->
  executeCommand doc sandbox (VObj fields) w =
    (Return match sandbox (assoc "code" fields) with
            | Return v => if truthy v then v else success_result
            | Throw e => error_result e
            end, w).
Proof.
  intros Haction.
  unfold executeCommand, switch_action, try_catch at 1, bind at 1, lift. simpl. rewrite Haction.
  simpl. unfold try_catch, bind at 1, lift. simpl. unfold bind at 1.
  by destruct (sandbox (assoc "code" fields)).
Qed.

(** C9, amended.  The [custom] action hands [cmd.code] to the bridge and
    answers with what [execute] resolved to, as it is, whenever that value
    is truthy; [{success: true}] stands in only for a falsy value.  A
    rejected [execute] (sandbox not ready, execution timeout, no bridge)
    is answered with [{error, stack}]. *)
Theorem custom_answers_with_sandbox_result fields w :
  assoc "action" fields = VStr "custom" ->
  (forall v, sandbox (assoc "code" fields) = Return v ->
     executeCommand doc sandbox (VObj fields) w =
       (Return (if truthy v then v else success_result), w))
  /\ (forall e, sandbox (assoc "code" fields) = Throw e ->
        executeCommand doc sandbox (VObj fields) w = (Return (error_result e), w)).
Proof.
  intros Haction.
  split; intros r Hr; rewrite (custom_outcome fields w Haction); by rewrite Hr.
Qed.

(** [k] failed attempts, each followed by a sleep of 100 ms. *)
Definition polls (sel : value) (k : nat) : list (@effect elem) :=
  concat (replicate k [Queried sel; Slept 100]).

Lemma polls_S sel k : polls sel (S k) = [Queried sel; Slept 100] ++ polls sel k.
Proof. reflexivity. Qed.

Lemma polls_0 sel : polls sel 0 = [].
Proof. reflexivity. Qed.

Arguments polls : simpl never.

Lemma wait_loop_found timeout sel el k : forall i w,
  i + k < max_attempts timeout ->
  (forall j, j < k -> querySelector (doc (i + j)) sel = Return None) ->
  querySelector (doc (i + k)) sel = Return (Some el) ->
  wait_loop doc timeout sel i w =
    (Return true, World (cookies w) (dom_log w ++ polls sel k ++ [Queried sel])).
Proof.
  induction k as [|k IH]; intros i w Hlt Hnone Hfound.
  - rewrite wait_loop_step.
    rewrite (proj2 (loop_guard_attempts i timeout)) by lia.
    unfold bind, query, bind, log, modify, lift. simpl.
    replace (i + 0) with i in Hfound by lia. by rewrite Hfound.
  - rewrite wait_loop_step.
    rewrite (proj2 (loop_guard_attempts i timeout)) by lia.
    unfold bind at 1, query, bind at 1, log, modify, lift. simpl.
    specialize (Hnone 0 ltac:(lia)) as Hhere.
    replace (i + 0) with i in Hhere by lia. rewrite Hhere.
    unfold bind at 1, sleep, log, modify. simpl.
    rewrite (IH (S i)).
    + cbn [cookies dom_log]. by rewrite <- !app_assoc.
    + lia.
    + intros j Hj. replace (S i + j) with (i + S j) by lia. apply Hnone. lia.
    + by replace (S i + k) with (i + S k) by lia.
Qed.

Lemma wait_loop_timeout timeout sel k : forall i w,
  i + k = max_attempts timeout ->
  (forall j, j < k -> querySelector (doc (i + j)) sel = Return None) ->
  wait_loop doc timeout sel i w =
    (Return false, World (cookies w) (dom_log w ++ polls sel k)).
Proof.
  induction k as [|k IH]; intros i w Hn Hnone.
  - rewrite wait_loop_step.
    destruct (loop_guard i timeout) eqn:Hg.
    + apply loop_guard_attempts in Hg. lia.
    + destruct w. unfold ret. rewrite polls_0. simpl. by rewrite app_nil_r.
  - rewrite wait_loop_step.
    rewrite (proj2 (loop_guard_attempts i timeout)) by lia.
    unfold bind at 1, query, bind at 1, log, modify, lift. simpl.
    specialize (Hnone 0 ltac:(lia)) as Hhere.
    replace (i + 0) with i in Hhere by lia. rewrite Hhere.
    unfold bind at 1, sleep, log, modify. simpl.
    rewrite (IH (S i)).
    + cbn [cookies dom_log]. by rewrite <- !app_assoc.
    + lia.
    + intros j Hj. replace (S i + j) with (i + S j) by lia. apply Hnone. lia.
Qed.

(** C6.  [waitForElement] with timeout [t] looks for the element at most
    [ceil(t / 100)] times, 100 ms apart.  It answers [{success: true}] at
    the first attempt that finds the element, without sleeping again, and
    [{success: false, error: "Timeout"}] when no attempt finds it.  With a
    timeout of 0 or less it does not look at all and answers the timeout
    at once. *)
Theorem waitForElement_polls fields w :
  assoc "action" fields = VStr "waitForElement" ->
  let sel := assoc "selector" fields in
  let timeout := to_number (assoc "timeout" fields) in
  let n := max_attempts timeout in
  (forall t, timeout = Some t -> Z.of_nat n = Z.max 0 (ceil_div100 t))
  /\ (forall k el,
        k < n ->
        (forall j, j < k -> querySelector (doc j) sel = Return None) ->
        querySelector (doc k) sel = Return (Some el) ->
        executeCommand doc sandbox (VObj fields) w =
          (Return success_result,
           World (cookies w) (dom_log w ++ polls sel k ++ [Queried sel])))
  /\ ((forall j, j < n -> querySelector (doc j) sel = Return None) ->
      executeCommand doc sandbox (VObj fields) w =
        (Return (failure_result "Timeout"),
         World (cookies w) (dom_log w ++ polls sel n)))
  /\ (forall t, timeout = Some t -> (t <= 0)%Z ->
        executeCommand doc sandbox (VObj fields) w =
          (Return (failure_result "Timeout"), w)).
Proof.
  intros Haction sel timeout n.
  assert (Hhead : executeCommand doc sandbox (VObj fields) w =
    try_catch
      (let! found := wait_loop doc timeout sel 0 in
       if found then ret success_result else ret (failure_result "Timeout"))
      (fun error => ret (error_result error)) w).
  { unfold executeCommand, switch_action, try_catch, bind at 1, lift. simpl. rewrite Haction.
    reflexivity. }
  assert (Htimeout : (forall j, j < n -> querySelector (doc j) sel = Return None) ->
      executeCommand doc sandbox (VObj fields) w =
        (Return (failure_result "Timeout"),
         World (cookies w) (dom_log w ++ polls sel n))).
  { intros Hnone. rewrite Hhead. unfold try_catch, bind.
    by rewrite (wait_loop_timeout timeout sel n 0 w). }
  split_and!.
  - intros t Ht. unfold n. rewrite Ht. simpl. lia.
  - intros k el Hk Hnone Hfound. rewrite Hhead. unfold try_catch, bind.
    by rewrite (wait_loop_found timeout sel el k 0 w).
  - exact Htimeout.
  - intros t Ht Hle.
    assert (Hn : n = 0).
    { unfold n. rewrite Ht. simpl. pose proof (ceil_div100_spec t). lia. }
    rewrite Htimeout; [|intros j Hj; lia].
    rewrite Hn, polls_0. destruct w. simpl. by rewrite app_nil_r.
Qed.

(** *** Exceptions stop at the channel *)

(** The cookies [write_result] leaves. *)
Lemma write_result_cookies result text w :
  JSON_stringify result = Return text ->
  write_result result w =
    (Return tt,
     World (set_cookie STATUS_COOKIE "done"
              (set_cookie RESULT_COOKIE (encodeURIComponent text) (cookies w)))
           (@dom_log elem w)).
Proof.
  intros Htext. unfold write_result, bind, lift, encode_result. by rewrite Htext.
Qed.

(** The cookies the [catch] of [checkForCommands] leaves. *)
Lemma report_parse_error_cookies e w :
  exists text,
    JSON_stringify (VObj [("error", VStr "Command parse error");
                          ("message", VStr (message e))]) = Return text
    /\ report_parse_error e w =
         (Return tt,
          World (set_cookie STATUS_COOKIE "error"
                   (set_cookie RESULT_COOKIE (encodeURIComponent text) (cookies w)))
                (@dom_log elem w)).
Proof.
  destruct (JSON_stringify_flat "error" "Command parse error" "message" (message e))
    as [text Htext].
  exists text. split; [done|].
  unfold report_parse_error, bind, lift, encode_result. by rewrite Htext.
Qed.

(** What a poll has written when it is over: the cookies [pw_result] and
    [pw_status] of the host under the path [/] hold the result and the
    status. *)
Definition answered (w : @world elem) (result : value) (status : string) : Prop :=
  exists text,
    JSON_stringify result = Return text
    /\ read_root RESULT_COOKIE (cookies w)
        = Some (RESULT_COOKIE +:+ "=" +:+ encodeURIComponent text)
    /\ read_root STATUS_COOKIE (cookies w) = Some (STATUS_COOKIE +:+ "=" +:+ status).

Lemma answered_cookies result text status j l :
  JSON_stringify result = Return text ->
  answered (World (set_cookie STATUS_COOKIE status
                     (set_cookie RESULT_COOKIE (encodeURIComponent text) j)) l)
           result status.
Proof.
  intros Htext. exists text. split_and!; [done| |]; simpl.
  - rewrite read_root_set_other by done. by apply read_root_set.
  - by apply read_root_set.
Qed.

(** The result the [catch] of [checkForCommands] writes for [e]. *)
Definition parse_error_result (e : exn) : value :=
  VObj [("error", VStr "Command parse error"); ("message", VStr (message e))].

Lemma report_parse_error_answered e w :
  exists w', report_parse_error e w = (Return tt, w')
             /\ answered w' (parse_error_result e) "error"
             /\ dom_log w' = dom_log w.
Proof.
  destruct (report_parse_error_cookies e w) as (text & Htext & ->).
  eexists. split; [done|]. split; [by apply answered_cookies|done].
Qed.

(** [executeCommand] returns what the handler returned, or the handler's
    exception as [{error, stack}]. *)
Lemma executeCommand_switch cmd w :
  executeCommand doc sandbox cmd w =
    match switch_action doc sandbox cmd w with
    | (Return result, w1) => (Return result, w1)
    | (Throw e, w1) => (Return (error_result e), w1)
    end.
Proof. unfold executeCommand, try_catch. by destruct (switch_action _ _ _ _) as [[r|e] w1]. Qed.

(** What the poll writes once [executeCommand] has returned [result]. *)
Lemma run_command_result cmd w result w1 :
  executeCommand doc sandbox cmd w = (Return result, w1) ->
  (forall text, JSON_stringify result = Return text ->
     exists w', run_command cmd w = (Return tt, w')
                /\ answered w' result "done" /\ dom_log w' = dom_log w1)
  /\ (forall e, JSON_stringify result = Throw e ->
        exists w', run_command cmd w = (Return tt, w')
                   /\ answered w' (parse_error_result e) "error"
                   /\ dom_log w' = dom_log w1).
Proof.
  intros Hrun. split.
  - intros text Htext. unfold run_command, try_catch, bind at 1. rewrite Hrun.
    rewrite (write_result_cookies _ _ _ Htext).
    eexists. split; [done|]. split; [by apply answered_cookies|done].
  - intros e He. unfold run_command, try_catch, bind at 1. rewrite Hrun.
    unfold write_result, bind at 1, lift, encode_result. rewrite He.
    apply report_parse_error_answered.
Qed.

(** A poll that finds [row] and takes the command [cmd] from it goes on
    to run it. *)
Lemma poll_taken w row cmd started :
  find_cookie COMMAND_COOKIE (cookies w) = Some row ->
  take_command row w = (Return cmd, started) ->
  checkForCommands doc sandbox w = run_command cmd started.
Proof.
  intros Hrow Htake. unfold checkForCommands, run_command, bind at 1, gets.
  rewrite Hrow. unfold try_catch, bind at 1. by rewrite Htake.
Qed.

(** C7.  A poll never throws, and when it finds a command it always
    writes a result and a final status.  Which ones is settled by what
    happened: a command that does not decode or parse is answered with
    [{error: "Command parse error", message}] and the status [error]; an
    exception that a handler throws is answered with [{error, stack}] of
    that exception and the status [done]; a result that a handler returns
    is answered as it is with the status [done] (or, if it cannot be
    serialised, as a parse error).  [executeCommand] itself always
    returns: the handler's result, or [{error, stack}] for what the
    handler threw (the DOM on a selector it cannot parse, a rejected
    [execute] of the [custom] action, a command that is [null]). *)
Theorem channel_never_throws w :
  (exists w', checkForCommands doc sandbox w = (Return tt, w'))
  /\ (find_cookie COMMAND_COOKIE (cookies w) = None ->
      checkForCommands doc sandbox w = (Return tt, w))
  /\ (forall row e w1,
        find_cookie COMMAND_COOKIE (cookies w) = Some row ->
        take_command row w = (Throw e, w1) ->
        exists w', checkForCommands doc sandbox w = (Return tt, w')
                   /\ answered w' (parse_error_result e) "error")
  /\ (forall row cmd started e w1,
        find_cookie COMMAND_COOKIE (cookies w) = Some row ->
        take_command row w = (Return cmd, started) ->
        switch_action doc sandbox cmd started = (Throw e, w1) ->
        exists w', checkForCommands doc sandbox w = (Return tt, w')
                   /\ answered w' (error_result e) "done"
                   /\ dom_log w' = dom_log w1)
  /\ (forall row cmd started result w1,
        find_cookie COMMAND_COOKIE (cookies w) = Some row ->
        take_command row w = (Return cmd, started) ->
        switch_action doc sandbox cmd started = (Return result, w1) ->
        (forall text, JSON_stringify result = Return text ->
           exists w', checkForCommands doc sandbox w = (Return tt, w')
                      /\ answered w' result "done"
                      /\ dom_log w' = dom_log w1)
        /\ (forall e, JSON_stringify result = Throw e ->
              exists w', checkForCommands doc sandbox w = (Return tt, w')
                         /\ answered w' (parse_error_result e) "error"))
  /\ (forall cmd e w1,
        switch_action doc sandbox cmd w = (Throw e, w1) ->
        executeCommand doc sandbox cmd w = (Return (error_result e), w1))
  /\ (forall cmd result w1,
        switch_action doc sandbox cmd w = (Return result, w1) ->
        executeCommand doc sandbox cmd w = (Return result, w1))
  /\ (forall fields e,
        assoc "action" fields = VStr "custom" ->
        sandbox (assoc "code" fields) = Throw e ->
        executeCommand doc sandbox (VObj fields) w = (Return (error_result e), w))
  /\ (forall fields e,
        assoc "action" fields = VStr "click" ->
        querySelector (doc 0) (assoc "selector" fields) = Throw e ->
        (executeCommand doc sandbox (VObj fields) w).1 = Return (error_result e))
  /\ (executeCommand doc sandbox VNull w).1
      = Return (error_result (TypeError_read VNull "action")).
Proof.
  assert (Hparse : forall row e w1,
    find_cookie COMMAND_COOKIE (cookies w) = Some row ->
    take_command row w = (Throw e, w1) ->
    exists w', checkForCommands doc sandbox w = (Return tt, w')
               /\ answered w' (parse_error_result e) "error").
  { intros row e w1 Hrow Htake.
    destruct (report_parse_error_answered e w1) as (w' & Hw' & Hanswered & _).
    exists w'. split; [|done].
    unfold checkForCommands, bind at 1, gets. rewrite Hrow.
    unfold try_catch, bind at 1. by rewrite Htake. }
  split_and!.
  - destruct (find_cookie COMMAND_COOKIE (cookies w)) as [row|] eqn:Hrow.
    2:{ exists w. by apply checkForCommands_idle. }
    destruct (take_command row w) as [[cmd|e] started] eqn:Htake.
    + rewrite (poll_taken w row cmd started Hrow Htake).
      destruct (executeCommand_returns cmd started) as [result Hresult].
      destruct (executeCommand doc sandbox cmd started) as [o w1] eqn:Hrun.
      simpl in Hresult. subst o.
      destruct (run_command_result cmd started result w1 Hrun) as [Hdone Herror].
      destruct (JSON_stringify result) as [text|e] eqn:Htext.
      * destruct (Hdone text eq_refl) as (w' & -> & _). by eexists.
      * destruct (Herror e eq_refl) as (w' & -> & _). by eexists.
    + destruct (Hparse row e started eq_refl Htake) as (w' & Hw' & _). by eexists.
  - intros Hnone. by apply checkForCommands_idle.
  - exact Hparse.
  - intros row cmd started e w1 Hrow Htake Hthrow.
    rewrite (poll_taken w row cmd started Hrow Htake).
    assert (Hrun : executeCommand doc sandbox cmd started = (Return (error_result e), w1)).
    { by rewrite executeCommand_switch, Hthrow. }
    destruct (JSON_stringify_flat "error" (message e) "stack" (stack e)) as [text Htext].
    apply (proj1 (run_command_result cmd started _ w1 Hrun) text Htext).
  - intros row cmd started result w1 Hrow Htake Hret.
    rewrite (poll_taken w row cmd started Hrow Htake).
    assert (Hrun : executeCommand doc sandbox cmd started = (Return result, w1)).
    { by rewrite executeCommand_switch, Hret. }
    destruct (run_command_result cmd started result w1 Hrun) as [Hdone Herror].
    split; [exact Hdone|].
    intros e He. destruct (Herror e He) as (w' & Hw' & Ha & _). eauto.
  - intros cmd e w1 Hthrow. by rewrite executeCommand_switch, Hthrow.
  - intros cmd result w1 Hret. by rewrite executeCommand_switch, Hret.
  - intros fields e Haction Hthrow.
    rewrite (custom_outcome fields w Haction). by rewrite Hthrow.
  - intros fields e Haction Hthrow.
    unfold executeCommand, switch_action, try_catch, bind at 1, lift. simpl.
    rewrite Haction. simpl.
    unfold bind at 1. simpl. unfold bind at 1, query, bind at 1, log, modify, lift.
    simpl. by rewrite Hthrow.
  - reflexivity.
Qed.

(** *** The other handlers *)

(** A poll that finds a command which decodes and parses goes on to run it
    from the state with the slot cleared and the status [processing]. *)
Lemma poll_parsed w row text cmd :
  find_cookie COMMAND_COOKIE (cookies w) = Some row ->
  decodeURIComponent (encoded_part row) = Return text ->
  JSON_parse text = Return cmd ->
  checkForCommands doc sandbox w
  = run_command cmd
      (World (set_cookie STATUS_COOKIE "processing"
                (expire_cookie COMMAND_COOKIE (cookies w))) (dom_log w)).
Proof.
  intros Hrow Htext Hcmd.
  unfold checkForCommands, run_command, bind at 1, gets. rewrite Hrow.
  unfold try_catch, bind at 1, take_command, bind at 1, lift.
  rewrite Htext. unfold bind at 1. rewrite Hcmd. reflexivity.
Qed.

Ltac handler :=
  unfold executeCommand, switch_action, try_catch, bind, query, log, modify, lift, ret; simpl.

(** X1.  [fillInput] on an element that is there assigns [cmd.value] to
    its [value] and then dispatches [input] and [change], once each and in
    that order, and answers [{success: true}].  When the element refuses
    the assignment nothing is dispatched and the exception is answered as
    [{error, stack}].  When no element matches, the page is only queried
    and the answer is [{success: false, error: "Element not found"}]. *)
Theorem fillInput_sets_then_notifies fields w :
  assoc "action" fields = VStr "fillInput" ->
  let sel := assoc "selector" fields in
  let v := assoc "value" fields in
  (forall el,
     querySelector (doc 0) sel = Return (Some el) ->
     assign_value (doc 0) el v = Return tt ->
     executeCommand doc sandbox (VObj fields) w =
       (Return success_result,
        World (cookies w)
              (dom_log w ++ [Queried sel; ValueSet el v;
                             Dispatched el "input"; Dispatched el "change"])))
  /\ (forall el e,
        querySelector (doc 0) sel = Return (Some el) ->
        assign_value (doc 0) el v = Throw e ->
        executeCommand doc sandbox (VObj fields) w =
          (Return (error_result e), World (cookies w) (dom_log w ++ [Queried sel])))
  /\ (querySelector (doc 0) sel = Return None ->
      executeCommand doc sandbox (VObj fields) w =
        (Return (failure_result "Element not found"),
         World (cookies w) (dom_log w ++ [Queried sel]))).
Proof.
  intros Haction sel v. split_and!.
  - intros el Hel Hset. handler. rewrite Haction. simpl. fold sel. rewrite Hel. simpl.
    fold v. rewrite Hset. simpl. by rewrite <- !app_assoc.
  - intros el e Hel Hset. handler. rewrite Haction. simpl. fold sel. rewrite Hel. simpl.
    fold v. by rewrite Hset.
  - intros Hnone. handler. rewrite Haction. simpl. fold sel. by rewrite Hnone.
Qed.

(** X21.  A [click] on an element that is there calls its [click] method
    once and answers [{success: true}].  On an element that has no such
    method (an SVG element) the call throws: nothing is clicked, and the
    answer is [{error, stack}] of that TypeError. *)
Theorem click_present_element fields w el :
  assoc "action" fields = VStr "click" ->
  let sel := assoc "selector" fields in
  querySelector (doc 0) sel = Return (Some el) ->
  (click (doc 0) el = Return tt ->
   executeCommand doc sandbox (VObj fields) w =
     (Return success_result,
      World (cookies w) (dom_log w ++ [Queried sel; Clicked el])))
  /\ (forall e,
        click (doc 0) el = Throw e ->
        executeCommand doc sandbox (VObj fields) w =
          (Return (error_result e), World (cookies w) (dom_log w ++ [Queried sel]))).
Proof.
  intros Haction sel Hel. split.
  - intros Hclick. handler. rewrite Haction. simpl. fold sel. rewrite Hel. simpl.
    rewrite Hclick. simpl. by rewrite <- !app_assoc.
  - intros e Hclick. handler. rewrite Haction. simpl. fold sel. rewrite Hel. simpl.
    by rewrite Hclick.
Qed.

(** X2.  The handlers that read: [getText] answers with the element's
    [textContent], [getAttribute] with the attribute asked for, and on a
    selector that matches nothing both answer with an [undefined] field
    instead of an error; [getAllText] answers with the texts of all the
    matches in document order, an empty array when there is none. *)
Theorem reading_handlers fields w :
  let sel := assoc "selector" fields in
  (assoc "action" fields = VStr "getText" ->
   forall found,
     querySelector (doc 0) sel = Return found ->
     executeCommand doc sandbox (VObj fields) w =
       (Return (VObj [("text", match found with
                               | Some el => textContent (doc 0) el
                               | None => VUndef
                               end)]),
        World (cookies w) (dom_log w ++ [Queried sel])))
  /\ (assoc "action" fields = VStr "getAttribute" ->
      forall found,
        querySelector (doc 0) sel = Return found ->
        executeCommand doc sandbox (VObj fields) w =
          (Return (VObj [("value", match found with
                                   | Some el =>
                                       getAttribute (doc 0) el (assoc "attribute" fields)
                                   | None => VUndef
                                   end)]),
           World (cookies w) (dom_log w ++ [Queried sel])))
  /\ (assoc "action" fields = VStr "getAllText" ->
      forall els,
        querySelectorAll (doc 0) sel = Return els ->
        exists texts,
          executeCommand doc sandbox (VObj fields) w
            = (Return (VObj [("texts", VArr texts)]), w)
          /\ length texts = length els
          /\ forall i el, els !! i = Some el -> texts !! i = Some (textContent (doc 0) el)).
Proof.
  intros sel. split_and!.
  - intros Haction found Hfound. handler. rewrite Haction. simpl. fold sel.
    by rewrite Hfound.
  - intros Haction found Hfound. handler. rewrite Haction. simpl. fold sel.
    by rewrite Hfound.
  - intros Haction els Hels. exists (map (textContent (doc 0)) els). split_and!.
    + handler. rewrite Haction. simpl. fold sel. rewrite Hels. by destruct w.
    + by rewrite length_map.
    + intros i el Hi. by rewrite list_lookup_fmap, Hi.
Qed.

(** The case labels of the [switch] in [executeCommand]. *)
Definition actions : list string :=
  ["click"; "getText"; "getAllText"; "fillInput"; "getAttribute"; "waitForElement";
   "custom"].

(** X3.  A command whose [action] is none of the seven the [switch] knows
    (a misspelt one, one that is missing, one that is no string) touches
    nothing and is answered with [{error: "Unknown action"}]; the poll
    that ran it writes this as its result and ends with the status [done],
    not [error]. *)
Theorem unknown_action_answered cmd action :
  get_field cmd "action" = Return action ->
  Forall (fun a => str_is action a = false) actions ->
  let unknown := VObj [("error", VStr "Unknown action")] in
  (forall w, executeCommand doc sandbox cmd w = (Return unknown, w))
  /\ (forall w row text out,
        find_cookie COMMAND_COOKIE (cookies w) = Some row ->
        decodeURIComponent (encoded_part row) = Return text ->
        JSON_parse text = Return cmd ->
        JSON_stringify unknown = Return out ->
        checkForCommands doc sandbox w =
          (Return tt,
           World (set_cookie STATUS_COOKIE "done"
                    (set_cookie RESULT_COOKIE (encodeURIComponent out)
                       (set_cookie STATUS_COOKIE "processing"
                          (expire_cookie COMMAND_COOKIE (cookies w)))))
                 (dom_log w))).
Proof.
  intros Haction Hnone unknown.
  assert (Hrun : forall w, executeCommand doc sandbox cmd w = (Return unknown, w)).
  { intros w. unfold executeCommand, switch_action, try_catch, bind at 1, lift. rewrite Haction.
    repeat (apply Forall_cons in Hnone as [-> Hnone]). reflexivity. }
  split; [done|].
  intros w row text out Hrow Htext Hcmd Hout.
  rewrite (poll_parsed w row text cmd Hrow Htext Hcmd).
  unfold run_command, try_catch, bind at 1. rewrite Hrun.
  by rewrite (write_result_cookies _ _ _ Hout).
Qed.

(** X19.  [waitForElement] without a usable [timeout] (the field is
    missing, or converts to [NaN]) does not look at the page at all: the
    loop test compares with [NaN] and fails at once, and the answer is
    [{success: false, error: "Timeout"}]. *)
Theorem waitForElement_without_timeout fields w :
  assoc "action" fields = VStr "waitForElement" ->
  to_number (assoc "timeout" fields) = None ->
  executeCommand doc sandbox (VObj fields) w = (Return (failure_result "Timeout"), w).
Proof.
  intros Haction Hnan.
  unfold executeCommand, switch_action, try_catch, bind at 1, lift. simpl. rewrite Haction. simpl.
  unfold bind at 1. simpl. unfold bind at 1. simpl. unfold bind at 1.
  rewrite wait_loop_step, Hnan. reflexivity.
Qed.

(** *** What the handlers leave alone *)

(** An effect that only looks at the page or waits. *)
Definition harmless (e : @effect elem) : bool :=
  match e with
  | Queried _ | Slept _ => true
  | _ => false
  end.

(** A statement sequence that writes no cookie and, on the page, only
    looks and waits. *)
Definition only_looks {A} (m : M (@world elem) A) : Prop :=
  forall w, exists l,
    (m w).2 = World (cookies w) (dom_log w ++ l) /\ forallb harmless l = true.

Lemma only_looks_ret {A} (a : A) : only_looks (ret a).
Proof. intros [j d]. exists []. by rewrite app_nil_r. Qed.

Lemma only_looks_lift {A} (o : outcome A) : only_looks (lift o).
Proof. intros [j d]. exists []. by rewrite app_nil_r. Qed.

Lemma only_looks_log e : harmless e = true -> only_looks (log e).
Proof. intros He w. exists [e]. simpl. by rewrite He. Qed.

Lemma only_looks_bind {A B} (m : M (@world elem) A) (k : A -> M (@world elem) B) :
  only_looks m -> (forall a, only_looks (k a)) -> only_looks (bind m k).
Proof.
  intros Hm Hk w. unfold bind. destruct (Hm w) as (l1 & Hw1 & Hl1).
  destruct (m w) as [[a|e] w1]; simpl in *; [|by exists l1].
  destruct (Hk a w1) as (l2 & Hw2 & Hl2). exists (l1 ++ l2).
  rewrite Hw2, Hw1. simpl. rewrite <- app_assoc. split; [done|].
  rewrite forallb_app. by rewrite Hl1, Hl2.
Qed.

Lemma only_looks_try_catch {A} (m : M (@world elem) A) (h : exn -> M (@world elem) A) :
  only_looks m -> (forall e, only_looks (h e)) -> only_looks (try_catch m h).
Proof.
  intros Hm Hh w. unfold try_catch. destruct (Hm w) as (l1 & Hw1 & Hl1).
  destruct (m w) as [[a|e] w1]; simpl in *; [by exists l1|].
  destruct (Hh e w1) as (l2 & Hw2 & Hl2). exists (l1 ++ l2).
  rewrite Hw2, Hw1. simpl. rewrite <- app_assoc. split; [done|].
  rewrite forallb_app. by rewrite Hl1, Hl2.
Qed.

Lemma only_looks_query n sel : only_looks (query doc n sel).
Proof.
  apply only_looks_bind; [by apply only_looks_log|intros; apply only_looks_lift].
Qed.

Lemma only_looks_wait_loop timeout sel i : only_looks (wait_loop doc timeout sel i).
Proof.
  remember (loop_measure i timeout) as n eqn:Hn.
  revert i Hn. induction (lt_wf n) as [n _ IH]. intros i -> w.
  rewrite wait_loop_step. destruct (loop_guard i timeout) eqn:Hg;
    [|by apply only_looks_ret].
  revert w. apply only_looks_bind; [apply only_looks_query|].
  intros [el|]; [apply only_looks_ret|].
  apply only_looks_bind; [by apply only_looks_log|intros _].
  intros w. by apply (IH _ (loop_measure_step _ _ Hg) (S i)).
Qed.

#[local] Hint Resolve only_looks_ret only_looks_lift only_looks_query
  only_looks_wait_loop : keeps.

Ltac looks :=
  repeat first
    [ apply only_looks_bind; [|intros ?]
    | apply only_looks_try_catch; [|intros ?]
    | apply only_looks_log; reflexivity
    | progress eauto with keeps
    | match goal with
      | |- only_looks (if ?b then _ else _) => destruct b
      | |- only_looks (match ?x with _ => _ end) => destruct x
      end ].

(** X4.  Only [click] and [fillInput] act on the page.  In every other
    command, whatever it is (a known action, an unknown one, a command
    that is no object at all), the handler writes no cookie and does
    nothing to the page but query it and wait.  (What the code of a
    [custom] command does inside the sandbox is not the handler's doing
    and is not in this log.) *)
Theorem other_actions_only_look cmd w :
  (forall action,
     get_field cmd "action" = Return action ->
     str_is action "click" = false /\ str_is action "fillInput" = false) ->
  exists l,
    (executeCommand doc sandbox cmd w).2 = World (cookies w) (dom_log w ++ l)
    /\ forallb harmless l = true.
Proof.
  intros Hact. revert w. change (only_looks (executeCommand doc sandbox cmd)).
  unfold executeCommand, switch_action. apply only_looks_try_catch; [|intros; apply only_looks_ret].
  intros w. unfold bind at 1, lift.
  destruct (get_field cmd "action") as [action|e] eqn:Haction.
  - destruct (Hact action eq_refl) as [Hclick Hfill]. rewrite Hclick, Hfill.
    revert w. match goal with |- forall w, exists l, (?m w).2 = _ /\ _ =>
      change (only_looks m) end.
    looks.
  - destruct w as [j d]. exists []. by rewrite app_nil_r.
Qed.

(** *** The cookies of others *)

(** A statement sequence that leaves the cookie [n] as it is. *)
Definition keeps_cookie (n : string) {A} (m : M (@world elem) A) : Prop :=
  forall w, find_cookie n (cookies (m w).2) = find_cookie n (cookies w).

Lemma keeps_cookie_any n {A} (m : M (@world elem) A) :
  keeps_cookies m -> keeps_cookie n m.
Proof. intros Hm w. by rewrite Hm. Qed.

Lemma keeps_cookie_bind n {A B} (m : M (@world elem) A) (k : A -> M (@world elem) B) :
  keeps_cookie n m -> (forall a, keeps_cookie n (k a)) -> keeps_cookie n (bind m k).
Proof.
  intros Hm Hk w. unfold bind. specialize (Hm w).
  destruct (m w) as [[a|e] w1]; simpl in *; [|done].
  by rewrite Hk.
Qed.

Lemma keeps_cookie_try_catch n {A} (m : M (@world elem) A) (h : exn -> M (@world elem) A) :
  keeps_cookie n m -> (forall e, keeps_cookie n (h e)) -> keeps_cookie n (try_catch m h).
Proof.
  intros Hm Hh w. unfold try_catch. specialize (Hm w).
  destruct (m w) as [[a|e] w1]; simpl in *; [done|].
  by rewrite Hh.
Qed.

Lemma keeps_cookie_write n n' v :
  has_char "=" n = false -> has_char "=" n' = false -> n <> n' ->
  keeps_cookie n (@write_cookie elem n' v).
Proof. intros Hn Hn' Hne w. simpl. by apply find_cookie_set_other. Qed.

Lemma keeps_cookie_clear n n' :
  has_char "=" n = false -> n <> n' -> keeps_cookie n (@clear_cookie elem n').
Proof. intros Hn Hne w. simpl. by apply find_cookie_expire_other. Qed.

(** X5.  A poll touches three cookies only: whatever it finds and however
    it ends, the cookie of every name other than [pw_cmd], [pw_result] and
    [pw_status] reads after the poll as it read before. *)
Theorem poll_keeps_other_cookies n w :
  has_char "=" n = false ->
  n <> COMMAND_COOKIE -> n <> RESULT_COOKIE -> n <> STATUS_COOKIE ->
  find_cookie n (cookies (checkForCommands doc sandbox w).2) = find_cookie n (cookies w).
Proof.
  intros Hn Hcmd Hres Hstat. revert w.
  change (keeps_cookie n (checkForCommands doc sandbox)).
  assert (Hreport : forall e, keeps_cookie n (@report_parse_error _ elem e)).
  { intros e. unfold report_parse_error.
    apply keeps_cookie_bind; [apply keeps_cookie_any, keeps_lift|intros enc].
    apply keeps_cookie_bind; [by apply keeps_cookie_write|intros _].
    by apply keeps_cookie_write. }
  unfold checkForCommands. apply keeps_cookie_bind; [by intros w|intros j].
  destruct (find_cookie COMMAND_COOKIE j) as [row|]; [|by intros w].
  apply keeps_cookie_try_catch; [|done].
  apply keeps_cookie_bind.
  { unfold take_command.
    apply keeps_cookie_bind; [apply keeps_cookie_any, keeps_lift|intros text].
    apply keeps_cookie_bind; [apply keeps_cookie_any, keeps_lift|intros cmd].
    apply keeps_cookie_bind; [by apply keeps_cookie_clear|intros _].
    apply keeps_cookie_bind; [by apply keeps_cookie_write|intros _].
    by intros w. }
  intros cmd. apply keeps_cookie_bind.
  { apply keeps_cookie_any, executeCommand_cookies. }
  intros result. unfold write_result.
  apply keeps_cookie_bind; [apply keeps_cookie_any, keeps_lift|intros enc].
  apply keeps_cookie_bind; [by apply keeps_cookie_write|intros _].
  by apply keeps_cookie_write.
Qed.

End ChannelFacts.

(** ** The retry loop of [executeCustomCode] *)

Section RuntimeFacts.
Variable sendMessage : nat -> value -> outcome value.

(** What one failed attempt that is tried again leaves in the log. *)
Definition failed_attempt (msg : value) (attempt : nat) : list runtime_effect :=
  [Sent msg; Logged (retry_line attempt); Paused 100].

(** X6.  [executeCustomCode] sends its message at most three times.  It
    returns the response of the first attempt that gets one and sends
    nothing after it; each failed attempt but the last is followed by one
    line on the console and a pause of 100 ms; after a third failure it
    pauses no more and returns the connection failure object with the
    message of that third error.  It never throws. *)
Theorem executeCustomCode_retries code l :
  let msg := VObj [("type", VStr "EXECUTE_CUSTOM"); ("code", code)] in
  (forall r,
     sendMessage 0 msg = Return r ->
     executeCustomCode sendMessage code l = (Return r, l ++ [Sent msg]))
  /\ (forall e0 r,
        sendMessage 0 msg = Throw e0 -> sendMessage 1 msg = Return r ->
        executeCustomCode sendMessage code l
        = (Return r, l ++ failed_attempt msg 0 ++ [Sent msg]))
  /\ (forall e0 e1 r,
        sendMessage 0 msg = Throw e0 -> sendMessage 1 msg = Throw e1 ->
        sendMessage 2 msg = Return r ->
        executeCustomCode sendMessage code l
        = (Return r, l ++ failed_attempt msg 0 ++ failed_attempt msg 1 ++ [Sent msg]))
  /\ (forall e0 e1 e2,
        sendMessage 0 msg = Throw e0 -> sendMessage 1 msg = Throw e1 ->
        sendMessage 2 msg = Throw e2 ->
        executeCustomCode sendMessage code l
        = (Return (connection_failure e2),
           l ++ failed_attempt msg 0 ++ failed_attempt msg 1 ++ [Sent msg]))
  /\ exists result l', executeCustomCode sendMessage code l = (Return result, l').
Proof.
  intros msg.
  assert (Hrun : executeCustomCode sendMessage code l =
    match sendMessage 0 msg with
    | Return r => (Return r, l ++ [Sent msg])
    | Throw _ =>
        match sendMessage 1 msg with
        | Return r => (Return r, l ++ failed_attempt msg 0 ++ [Sent msg])
        | Throw _ =>
            match sendMessage 2 msg with
            | Return r =>
                (Return r, l ++ failed_attempt msg 0 ++ failed_attempt msg 1 ++ [Sent msg])
            | Throw e2 =>
                (Return (connection_failure e2),
                 l ++ failed_attempt msg 0 ++ failed_attempt msg 1 ++ [Sent msg])
            end
        end
    end).
  { unfold executeCustomCode, retry_from, try_catch, send_message, bind, modify, lift, ret.
    simpl. fold msg.
    destruct (sendMessage 0 msg); [done|].
    destruct (sendMessage 1 msg); simpl; [by rewrite <- !app_assoc|].
    destruct (sendMessage 2 msg); simpl; by rewrite <- !app_assoc. }
  split_and!.
  - intros r H0. by rewrite Hrun, H0.
  - intros e0 r H0 H1. by rewrite Hrun, H0, H1.
  - intros e0 e1 r H0 H1 H2. by rewrite Hrun, H0, H1, H2.
  - intros e0 e1 e2 H0 H1 H2. by rewrite Hrun, H0, H1, H2.
  - rewrite Hrun. destruct (sendMessage 0 msg); [by eauto|].
    destruct (sendMessage 1 msg); [by eauto|].
    destruct (sendMessage 2 msg); by eauto.
Qed.

End RuntimeFacts.

(** ** The background worker *)

Section BackgroundFacts.
Context `{Engine}.

(** [{ status: 'alive' }] *)
Definition alive : value := VObj [("status", VStr "alive")].

(** [message.type === 'KEEPALIVE'] *)
Definition is_keepalive (msg : value) : bool :=
  match get_field msg "type" with
  | Return type => str_is type "KEEPALIVE"
  | Throw _ => false
  end.

(** The pings among the events. *)
Definition pings (evs : list worker_event) : nat :=
  length (List.filter (fun e => match e with
                                | Receives msg => is_keepalive msg
                                | Passes _ => false
                                end) evs).

Lemma onMessage_state msg w :
  (onMessage msg w).2
  = Worker (clock w) (clock w) (next_check w)
      (responses w ++ (if is_keepalive msg then [alive] else [])) (storage_reads w).
Proof.
  unfold onMessage, is_keepalive, bind, modify, lift, ret. simpl.
  destruct (get_field msg "type") as [type|e]; simpl.
  - destruct (str_is type "KEEPALIVE"); simpl; [done|by rewrite app_nil_r].
  - by rewrite app_nil_r.
Qed.

Lemma worker_tick_responses w : responses (worker_tick w) = responses w.
Proof.
  unfold worker_tick, self_keepalive. simpl.
  repeat (case_match; simpl; try done).
Qed.

Lemma worker_ticks_responses n : forall w, responses (worker_ticks n w) = responses w.
Proof.
  induction n as [|n IH]; intros w; simpl; [done|].
  by rewrite IH, worker_tick_responses.
Qed.

Lemma worker_tick_clock w : clock (worker_tick w) = (clock w + 1)%Z.
Proof.
  unfold worker_tick, self_keepalive. simpl.
  repeat (case_match; simpl; try done).
Qed.

Lemma worker_ticks_clock n : forall w,
  clock (worker_ticks n w) = (clock w + Z.of_nat n)%Z.
Proof.
  induction n as [|n IH]; intros w; simpl; [lia|].
  rewrite IH, worker_tick_clock. lia.
Qed.

Lemma worker_run_responses (evs : list worker_event) : forall w,
  responses (worker_run evs w) = responses w ++ replicate (pings evs) alive.
Proof.
  induction evs as [|e evs IH]; intros w; simpl.
  { by rewrite app_nil_r. }
  change (worker_run (e :: evs) w) with (worker_run evs (worker_step w e)).
  rewrite IH. destruct e as [ms|m]; simpl.
  - by rewrite worker_ticks_responses.
  - rewrite onMessage_state. simpl. unfold pings. simpl.
    destruct (is_keepalive m); simpl; [|by rewrite app_nil_r].
    by rewrite <- app_assoc.
Qed.

(** X7.  The worker answers pings and nothing else: over any history, one
    [{status: "alive"}] is sent for each message whose [type] is
    [KEEPALIVE], in the order they came, and none for any other message or
    for the passing of time.  Every message, a ping or not, even one that
    makes the listener throw, sets [lastActivity] to the time it arrived;
    the listener tells the runtime to wait for a response exactly for a
    ping. *)
Theorem worker_answers_pings (evs : list worker_event) w msg :
  responses (worker_run evs w) = responses w ++ replicate (pings evs) alive
  /\ lastActivity (worker_run (evs ++ [Receives msg]) w) = clock (worker_run evs w)
  /\ (onMessage msg w).1
     = match get_field msg "type" with
       | Return type => Return (str_is type "KEEPALIVE")
       | Throw e => Throw e
       end.
Proof.
  split_and!.
  - apply worker_run_responses.
  - unfold worker_run. rewrite fold_left_app. simpl. by rewrite onMessage_state.
  - unfold onMessage, bind, modify, lift, ret. simpl.
    destruct (get_field msg "type") as [type|e]; simpl; [|done].
    by destruct (str_is type "KEEPALIVE").
Qed.

(** The interval is armed, and [lastActivity] is not in the future. *)
Definition armed (w : worker) : Prop :=
  (lastActivity w <= clock w)%Z /\ (clock w < next_check w <= clock w + 15000)%Z.

Lemma armed_start t0 : armed (start_worker t0).
Proof. unfold armed. simpl. lia. Qed.

Lemma armed_tick w : armed w -> armed (worker_tick w).
Proof.
  unfold armed, worker_tick, self_keepalive. simpl. intros Hw.
  repeat (case_match; simpl); lia.
Qed.

Lemma armed_ticks n : forall w, armed w -> armed (worker_ticks n w).
Proof.
  induction n as [|n IH]; intros w Hw; simpl; [done|]. by apply IH, armed_tick.
Qed.

Lemma armed_step w e : armed w -> armed (worker_step w e).
Proof.
  intros Hw. destruct e as [ms|msg]; simpl.
  - by apply armed_ticks.
  - rewrite onMessage_state. unfold armed in *. simpl. lia.
Qed.

Lemma armed_run evs : forall w, armed w -> armed (worker_run evs w).
Proof.
  induction evs as [|e evs IH]; intros w Hw; [done|].
  change (worker_run (e :: evs) w) with (worker_run evs (worker_step w e)).
  by apply IH, armed_step.
Qed.

(** What a silence has added to the log of storage reads so far. *)
Record silent_since (w s : worker) (extra : list Z) : Prop := {
  silent_armed : armed s;
  silent_clock : (clock w <= clock s)%Z;
  silent_activity : lastActivity s = lastActivity w;
  silent_reads : storage_reads s = storage_reads w ++ extra;
  silent_times :
    Forall (fun t => (clock w < t <= clock s)%Z /\ (t - lastActivity w < 25000)%Z) extra;
  silent_next :
    (next_check w + 15000 * Z.of_nat (length extra) <= next_check s)%Z;
  silent_few : length extra <= 2
}.

Lemma silent_tick w s extra :
  armed w -> silent_since w s extra ->
  exists extra', silent_since w (worker_tick s) extra'.
Proof.
  intros [Hw0 Hw1] [[S0 S1] Sc S2 S3 S4 S5 S6].
  unfold worker_tick, self_keepalive. simpl.
  destruct (clock s + 1 =? next_check s)%Z eqn:Hdue; simpl.
  - apply Z.eqb_eq in Hdue.
    destruct (clock s + 1 - lastActivity s <? 25000)%Z eqn:Hrecent; simpl.
    + apply Z.ltb_lt in Hrecent. exists (extra ++ [(clock s + 1)%Z]).
      split; simpl; try (unfold armed; simpl; lia).
      * by rewrite S3, app_assoc.
      * apply Forall_app. split.
        -- eapply Forall_impl; [exact S4|]. simpl. intros t ?. lia.
        -- constructor; [|done]. lia.
      * rewrite length_app. simpl. lia.
      * rewrite length_app. simpl. lia.
    + exists extra. split; simpl; try done; try (unfold armed; simpl; lia).
      eapply Forall_impl; [exact S4|]. simpl. intros t ?. lia.
  - exists extra. apply Z.eqb_neq in Hdue.
    split; simpl; try done; try (unfold armed; simpl; lia).
    eapply Forall_impl; [exact S4|]. simpl. intros t ?. lia.
Qed.

Lemma silent_ticks w n : forall s extra,
  armed w -> silent_since w s extra ->
  exists extra', silent_since w (worker_ticks n s) extra'.
Proof.
  induction n as [|n IH]; intros s extra Hw Hs; simpl; [by eauto|].
  destruct (silent_tick w s extra Hw Hs) as [extra' Hs']. by eapply IH.
Qed.

(** X8.  Left without messages the worker soon stops keeping itself
    awake.  After any history, in a silence however long, it reads storage
    at most twice more: each read is at a check less than 25 seconds after
    the last message (or after the start), and the checks are 15 seconds
    apart. *)
Theorem worker_rests_after_silence t0 (evs : list worker_event) (n : nat) :
  let w := worker_run evs (start_worker t0) in
  exists extra,
    storage_reads (worker_ticks n w) = storage_reads w ++ extra
    /\ length extra <= 2
    /\ Forall (fun t => (clock w < t <= clock w + Z.of_nat n)%Z
                        /\ (t - lastActivity w < 25000)%Z) extra.
Proof.
  intros w.
  assert (Hw : armed w) by apply armed_run, armed_start.
  destruct (silent_ticks w n w [] Hw) as [extra [Ha Sc S2 S3 S4 S5 S6]].
  { split; [done|lia|done|by rewrite app_nil_r|constructor|simpl; lia|simpl; lia]. }
  exists extra. rewrite worker_ticks_clock in S4. done.
Qed.

(** The longest time the worker has been without a message, over a
    history that starts [since] ms after the last one. *)
Fixpoint longest_silence (since : Z) (evs : list worker_event) : Z :=
  match evs with
  | [] => since
  | Passes ms :: rest => longest_silence (since + Z.max 0 ms) rest
  | Receives _ :: rest => Z.max since (longest_silence 0 rest)
  end.

Lemma longest_silence_ge evs : forall since, (since <= longest_silence since evs)%Z.
Proof.
  induction evs as [|[ms|msg] evs IH]; intros since; simpl; [lia| |lia].
  specialize (IH (since + Z.max 0 ms)%Z). lia.
Qed.

(** The times of the first [k] checks from [w] on. *)
Definition check_times (w : worker) (k : nat) : list Z :=
  map (fun j => (next_check w + 15000 * Z.of_nat j)%Z) (seq 0 k).

(** Every check from [w] to [s] has read storage. *)
Record awake (w s : worker) (k : nat) : Prop := {
  awake_armed : armed s;
  awake_next : next_check s = (next_check w + 15000 * Z.of_nat k)%Z;
  awake_reads : storage_reads s = storage_reads w ++ check_times w k
}.

Lemma awake_tick w s k :
  (clock s + 1 - lastActivity s < 25000)%Z ->
  awake w s k -> exists k', awake w (worker_tick s) k'.
Proof.
  intros Hrecent [Ha Hn Hr]. pose proof (armed_tick s Ha) as Ha'.
  unfold worker_tick, self_keepalive in *. simpl in *.
  destruct (clock s + 1 =? next_check s)%Z eqn:Hdue; simpl in *.
  - apply Z.eqb_eq in Hdue. apply Z.ltb_lt in Hrecent as Hlt. rewrite Hlt in *.
    simpl in *. exists (S k). split; simpl; [done|lia|].
    unfold check_times. rewrite seq_S, map_app. simpl.
    rewrite Hr, <- app_assoc. unfold check_times. do 3 f_equal. lia.
  - exists k. by split.
Qed.

Lemma awake_ticks w n : forall s k,
  (clock s + Z.of_nat n - lastActivity s < 25000)%Z ->
  awake w s k ->
  exists k', awake w (worker_ticks n s) k'
             /\ lastActivity (worker_ticks n s) = lastActivity s.
Proof.
  induction n as [|n IH]; intros s k Hrecent Hs; simpl; [by eauto|].
  destruct (awake_tick w s k ltac:(lia) Hs) as [k1 Hs1].
  assert (Hlast : lastActivity (worker_tick s) = lastActivity s).
  { unfold worker_tick, self_keepalive. simpl. repeat (case_match; simpl; try done). }
  destruct (IH (worker_tick s) k1) as (k' & Hs' & Hlast'); [|done|].
  { rewrite worker_tick_clock, Hlast. lia. }
  exists k'. split; [done|congruence].
Qed.

Lemma awake_run w evs : forall s k,
  (longest_silence (clock s - lastActivity s) evs < 25000)%Z ->
  awake w s k -> exists k', awake w (worker_run evs s) k'.
Proof.
  induction evs as [|[ms|msg] evs IH]; intros s k Hquiet Hs; [by eauto|..].
  - change (worker_run (Passes ms :: evs) s)
      with (worker_run evs (worker_ticks (Z.to_nat ms) s)).
    simpl in Hquiet.
    pose proof (longest_silence_ge evs (clock s - lastActivity s + Z.max 0 ms)%Z).
    destruct (awake_ticks w (Z.to_nat ms) s k ltac:(lia) Hs) as (k1 & Hs1 & Hlast).
    apply (IH _ k1); [|done].
    rewrite worker_ticks_clock, Hlast.
    by replace (clock s + Z.of_nat (Z.to_nat ms) - lastActivity s)%Z
      with (clock s - lastActivity s + Z.max 0 ms)%Z by lia.
  - change (worker_run (Receives msg :: evs) s)
      with (worker_run evs (onMessage msg s).2).
    simpl in Hquiet. apply (IH _ k).
    + rewrite onMessage_state. simpl.
      replace (clock s - clock s)%Z with 0%Z by lia. lia.
    + destruct Hs as [[Ha0 Ha1] Hn Hr]. rewrite onMessage_state.
      split; simpl; [|done..]. unfold armed. simpl. lia.
Qed.

(** X9.  Pings keep the worker awake.  After any history, as long as the
    worker is never left 25 seconds without a message (the content script
    pings every 20 seconds), none of its checks is skipped: storage is
    read at every one of them, 15 seconds apart. *)
Theorem pings_keep_worker_awake t0 (before evs : list worker_event) :
  let w := worker_run before (start_worker t0) in
  let final := worker_run evs w in
  (longest_silence (clock w - lastActivity w) evs < 25000)%Z ->
  exists k : nat,
    next_check final = (next_check w + 15000 * Z.of_nat k)%Z
    /\ (clock final < next_check final <= clock final + 15000)%Z
    /\ storage_reads final = storage_reads w ++ check_times w k.
Proof.
  intros w final Hquiet.
  assert (Hw : armed w) by apply armed_run, armed_start.
  destruct (awake_run w evs w 0 Hquiet) as [k [[_ Ha] Hn Hr]].
  { split; [done|lia|]. unfold check_times. simpl. by rewrite app_nil_r. }
  exists k. split; [exact Hn|]. split; [exact Ha|exact Hr].
Qed.

(** [{ type: 'KEEPALIVE' }] *)
Definition ping : value := VObj [("type", VStr "KEEPALIVE")].

(** content.js, lines 161 to 172: a ping every 20 seconds, as the worker
    sees it. *)
Fixpoint pinger (rounds : nat) : list worker_event :=
  match rounds with
  | O => []
  | S rounds' => Passes 20000 :: Receives ping :: pinger rounds'
  end.

Lemma pinger_silence rounds : forall since,
  (0 <= since)%Z -> (longest_silence since (pinger rounds) <= since + 20000)%Z.
Proof.
  induction rounds as [|n IH]; intros since Hsince; simpl; [lia|].
  specialize (IH 0%Z ltac:(lia)). lia.
Qed.

Lemma pinger_pings rounds : pings (pinger rounds) = rounds.
Proof.
  induction rounds as [|n IH]; [done|]. unfold pings in *. simpl. by rewrite IH.
Qed.

(** X20.  The content script's pings are enough.  When the content script
    starts pinging less than 5 seconds after the worker last heard
    anything, then for as long as its 20 second interval runs the worker
    answers every ping and skips none of its own checks: storage is read at
    each of them. *)
Theorem content_pings_keep_worker_awake t0 (before : list worker_event) (rounds : nat) :
  let w := worker_run before (start_worker t0) in
  let final := worker_run (pinger rounds) w in
  (clock w - lastActivity w < 5000)%Z ->
  responses final = responses w ++ replicate rounds alive
  /\ exists k : nat,
       next_check final = (next_check w + 15000 * Z.of_nat k)%Z
       /\ (clock final < next_check final <= clock final + 15000)%Z
       /\ storage_reads final = storage_reads w ++ check_times w k.
Proof.
  intros w final Hclose.
  assert (Hw : armed w) by apply armed_run, armed_start.
  split.
  - unfold final. by rewrite worker_run_responses, pinger_pings.
  - destruct (awake_run w (pinger rounds) w 0) as [k [[_ Ha] Hn Hr]].
    + destruct Hw as [Hw _]. pose proof (pinger_silence rounds (clock w - lastActivity w)).
      lia.
    + split; [done|lia|]. unfold check_times. simpl. by rewrite app_nil_r.
    + exists k. split; [exact Hn|]. split; [exact Ha|exact Hr].
Qed.

End BackgroundFacts.

(** *** The channel on the reference page *)

(** [{"action":"click","selector":"#none"}], as the controller writes it. *)
Definition click_none_cookie : string :=
  "pw_cmd=%7B%22action%22%3A%22click%22%2C%22selector%22%3A%22%23none%22%7D".

(** [{"action":"custom","code":"return 1+1"}] *)
Definition custom_cookie : string :=
  "pw_cmd=%7B%22action%22%3A%22custom%22%2C%22code%22%3A%22return%201%2B1%22%7D".

(** [{"action":"waitForElement","selector":"#late","timeout":250}] *)
Definition wait_late_cookie : string :=
  "pw_cmd=%7B%22action%22%3A%22waitForElement%22%2C%22selector%22%3A%22%23late%22%2C%22timeout%22%3A250%7D".

Definition no_sandbox : value -> outcome value :=
  fun _ => Throw (new_Error "Sandbox not ready").



(** Nor is a text that does not parse cleared: the poll finds
    [pw_cmd={broken], reports a parse error and leaves the slot as it
    was, and the next poll reports the same text again. *)
Lemma unparsed_command_stays_in_slot :
  let w : @world nat := World (root_jar ["pw_cmd=%7Bbroken"]) [] in
  let w' := (checkForCommands reference_page no_sandbox w).2 in
  find_cookie COMMAND_COOKIE (cookies w) = Some "pw_cmd=%7Bbroken"
  /\ decodeURIComponent (encoded_part "pw_cmd=%7Bbroken") = Return "{broken"
  /\ JSON_parse "{broken" = Throw SyntaxError
  /\ find_cookie COMMAND_COOKIE (cookies w') = Some "pw_cmd=%7Bbroken"
  /\ ~ slot_empty w'
  /\ find_cookie STATUS_COOKIE (cookies w') = Some "pw_status=error"
  /\ checkForCommands reference_page no_sandbox w' = (Return tt, w').
Proof. vm_compute. by split_and!. Qed.


Lemma click_missing_element_witness :
  querySelector (reference_page 0) (VStr "#none") = Return None
  /\ executeCommand reference_page no_sandbox
       (VObj [("action", VStr "click"); ("selector", VStr "#none")]) (World [] [])
     = (Return (VObj [("success", VBool true)]), World [] [Queried (VStr "#none")]).
Proof.
  split; [reflexivity|].
  exact (click_missing_element reference_page no_sandbox
           [("action", VStr "click"); ("selector", VStr "#none")] (World [] [])
           eq_refl eq_refl).
Defined.

(** The banner [#late] is in the document from the third attempt on. *)
Lemma waitForElement_polls_witness :
  max_attempts (Some 250%Z) = 3
  /\ executeCommand reference_page no_sandbox
       (VObj [("action", VStr "waitForElement"); ("selector", VStr "#late");
              ("timeout", VNum 250)]) (World [] [])
     = (Return (VObj [("success", VBool true)]),
        World [] [Queried (VStr "#late"); Slept 100; Queried (VStr "#late"); Slept 100;
                  Queried (VStr "#late")])
  /\ executeCommand reference_page no_sandbox
       (VObj [("action", VStr "waitForElement"); ("selector", VStr "#late");
              ("timeout", VNum 0)]) (World [] [])
     = (Return (VObj [("success", VBool false); ("error", VStr "Timeout")]), World [] []).
Proof.
  split; [reflexivity|]. split.
  - refine (proj1 (proj2 (waitForElement_polls reference_page no_sandbox
      [("action", VStr "waitForElement"); ("selector", VStr "#late");
       ("timeout", VNum 250)] (World [] []) eq_refl)) 2 3 _ _ eq_refl).
    + vm_compute. lia.
    + intros [|[|j]] Hj; [reflexivity..|lia].
  - exact (proj2 (proj2 (proj2 (waitForElement_polls reference_page no_sandbox
      [("action", VStr "waitForElement"); ("selector", VStr "#late");
       ("timeout", VNum 0)] (World [] []) eq_refl))) 0%Z eq_refl ltac:(done)).
Defined.

(** ** The sandbox bridge *)


(** The decimal numeral of [n] is a segment of digits, read as index [n]. *)
Lemma digit_char d :
  (d < 10)%N ->
  N.of_nat (nat_of_ascii (pretty_N_char d) - 48) = d /\ is_digit (pretty_N_char d) = true.
Proof.
  intros Hd.
  assert (d = 0 ∨ d = 1 ∨ d = 2 ∨ d = 3 ∨ d = 4 ∨ d = 5 ∨ d = 6 ∨ d = 7 ∨ d = 8 ∨ d = 9)%N
    as Hcases by lia.
  repeat destruct Hcases as [->|Hcases]; try subst d; by vm_compute.
Qed.


Lemma all_digits_go x : forall s, all_digits (pretty_N_go x s) = all_digits s.
Proof.
  induction (N.lt_wf_0 x) as [x _ IH]; intros s.
  assert (x = 0 ∨ 0 < x)%N as [->|Hx] by lia; [by rewrite pretty_N_go_0|].
  rewrite pretty_N_go_step by done. rewrite IH by (by apply N.div_lt). simpl.
  by destruct (digit_char (x `mod` 10)%N) as [_ ->]; [by apply N.mod_lt|].
Qed.



(** *** Correlation ids *)

Lemma digits_no_mark (s : string) : all_digits s = true -> has_char "_" s = false.
Proof.
  induction s as [|a s IH]; simpl; [done|].
  intros [Ha Hs]%andb_true_iff. rewrite (IH Hs), orb_false_r.
  destruct (Ascii.eqb a "_") eqn:Heq; [|done].
  apply Ascii.eqb_eq in Heq. by subst.
Qed.

Lemma pretty_N_no_mark (n : N) : has_char "_" (pretty n) = false.
Proof.
  apply digits_no_mark. unfold pretty, pretty_N. case_decide; [done|].
  by rewrite all_digits_go.
Qed.

Lemma pretty_Z_no_mark (z : Z) : has_char "_" (pretty z) = false.
Proof.
  destruct z as [|x|x]; [done|apply pretty_N_no_mark|].
  change (pretty (Z.neg x)) with ("-" +:+ pretty (N.pos x)).
  rewrite append_cons, append_nil. simpl. apply pretty_N_no_mark.
Qed.

Lemma split_at_mark (a a' r r' : string) :
  has_char "_" a = false -> has_char "_" a' = false ->
  a +:+ String "_" r = a' +:+ String "_" r' -> a = a' /\ r = r'.
Proof.
  revert a'. induction a as [|x a IH]; intros [|x' a'] Ha Ha'; simpl in *.
  - rewrite !append_nil. by intros [= ->].
  - rewrite append_nil, append_cons. intros [= <- _].
    by rewrite Ascii.eqb_refl in Ha'.
  - rewrite append_nil, append_cons. intros [= -> _].
    by rewrite Ascii.eqb_refl in Ha.
  - rewrite !append_cons. intros [= -> Heq].
    apply orb_false_elim in Ha as [_ Ha]. apply orb_false_elim in Ha' as [_ Ha'].
    destruct (IH a' Ha Ha' Heq) as [-> ->]. done.
Qed.

(** X15.  The id [exec_<time>_<suffix>] names its time and its suffix:
    two ids are equal only when both the millisecond and the random suffix
    are.  Calls dispatched in different milliseconds, or with different
    suffixes, never share an id. *)
Theorem gen_id_injective (t t' : Z) (rnd rnd' : string) :
  String.eqb (gen_id t rnd) (gen_id t' rnd') = (t =? t')%Z && String.eqb rnd rnd'.
Proof.
  destruct (String.eqb_spec (gen_id t rnd) (gen_id t' rnd')) as [Heq|Hne].
  - unfold gen_id in Heq. rewrite !append_cons, !append_nil in Heq.
    injection Heq as Heq.
    change ("_" +:+ rnd) with (String "_" rnd) in Heq.
    change ("_" +:+ rnd') with (String "_" rnd') in Heq.
    apply split_at_mark in Heq as [Ht Hr]; try apply pretty_Z_no_mark.
    apply (inj pretty) in Ht. subst. by rewrite Z.eqb_refl, String.eqb_refl.
  - symmetry. apply andb_false_iff.
    destruct (Z.eqb_spec t t') as [->|]; [|by left]. right.
    apply String.eqb_neq. by intros ->.
Qed.

Section BridgeFacts.
Context `{Engine} {elem jsobj : Type}.

#[local] Abbreviation bridge := (@bridge jsobj).
#[local] Abbreviation event := (@event elem jsobj).

(** *** Messages from elsewhere *)


Lemma foreign_sandbox (pg : Page elem) : foreign pg (contentWindow pg) = false.
Proof. unfold foreign. by rewrite bool_decide_eq_true_2. Qed.

Lemma foreign_passes (pg : Page elem) source :
  foreign pg source = false -> source = contentWindow pg.
Proof. unfold foreign. intros Hs%negb_false_iff. by apply bool_decide_eq_true in Hs. Qed.





(** *** [CUSTOM_QUERY] *)




(** What [post] does when the iframe is in the document. *)
Lemma post_attached (pg : Page elem) w clones m (s : bridge) :
  contentWindow pg = Some w ->
  post pg clones m s
  = if clones then (Return tt, postMessage m s) else (Throw DataCloneError, s).
Proof. intros Hw. unfold post. rewrite Hw. by destruct clones. Qed.


(** *** Responses to [execute] *)

(** [data] is an [EXECUTION_RESULT] or [EXECUTION_ERROR] message that
    carries the id [id]. *)
Definition response_to (id : string) (data : value) : bool :=
  match data with
  | VObj fields =>
      (str_is (assoc "type" fields) "EXECUTION_RESULT"
       || str_is (assoc "type" fields) "EXECUTION_ERROR")
      && str_is (assoc "id" fields) id
  | _ => false
  end.

(** How a response settles the call it belongs to; [None] for an
    [EXECUTION_ERROR] without an [error] object, on which the listener
    throws before it rejects. *)
Definition settlement_of (data : value) : option settlement :=
  match data with
  | VObj fields =>
      if str_is (assoc "type" fields) "EXECUTION_RESULT"
      then Some (Resolved (assoc "result" fields))
      else match get_field (assoc "error" fields) "message" with
           | Return m => Some (Rejected (new_Error (error_text m)))
           | Throw _ => None
           end
  | _ => None
  end.

Definition finish (c : call) (how : option settlement) (s : bridge) : bridge :=
  match how with
  | Some h => settle c h s
  | None => s
  end.

Lemma str_is_eq v lit : str_is v lit = true -> v = VStr lit.
Proof.
  destruct v; simpl; try done. by intros ->%String.eqb_eq.
Qed.

Lemma document_details_state (pg : Page elem) (s : bridge) : (document_details pg s).2 = s.
Proof.
  unfold document_details, bind, lift, ret.
  repeat (case_match; simpl; try done).
Qed.

(** A response whose id is pending removes the record and settles the call. *)
Lemma listener_response (pg : Page elem) (g : Globals jsobj) data k c (s : bridge) :
  response_to k data = true ->
  pendingExecutions s !! k = Some c ->
  (listener pg g (contentWindow pg) data s).2
    = finish c (settlement_of data) (set_pending (delete k (pendingExecutions s)) s).
Proof.
  intros Hresp Hpending. destruct data as [| | | | | |fields]; try done.
  simpl in Hresp. apply andb_true_iff in Hresp as [Htype Hid].
  apply str_is_eq in Hid.
  unfold listener. rewrite foreign_sandbox.
  unfold bind, lift, gets, modify. simpl. rewrite Hid.
  apply orb_true_iff in Htype as [Htype|Htype].
  - rewrite (str_is_eq _ _ Htype). simpl. by rewrite Hpending.
  - rewrite (str_is_eq _ _ Htype). simpl. rewrite Hpending. simpl.
    by destruct (get_field (assoc "error" fields) "message").
Qed.

(** A response whose id is not pending changes nothing. *)
Lemma listener_late_response (pg : Page elem) (g : Globals jsobj) data k (s : bridge) :
  response_to k data = true ->
  pendingExecutions s !! k = None ->
  listener pg g (contentWindow pg) data s = (Return tt, s).
Proof.
  intros Hresp Hpending. destruct data as [| | | | | |fields]; try done.
  simpl in Hresp. apply andb_true_iff in Hresp as [Htype Hid].
  apply str_is_eq in Hid.
  unfold listener. rewrite foreign_sandbox.
  unfold bind, lift, gets, modify. simpl. rewrite Hid.
  apply orb_true_iff in Htype as [Htype|Htype];
    rewrite (str_is_eq _ _ Htype); simpl; by rewrite Hpending.
Qed.

(** All the listener can do to the bridge; [ours] tells whether the
    message passed the source check. *)
Inductive handled (ours : bool) (data : value) (s : bridge) : bridge -> Prop :=
| handled_dropped : handled ours data s s
| handled_ready : handled ours data s (set_ready true s)
| handled_query id r : handled ours data s (postMessage (DOM_RESULT id r) s)
| handled_response k c :
    ours = true ->
    response_to k data = true ->
    pendingExecutions s !! k = Some c ->
    handled ours data s
      (finish c (settlement_of data) (set_pending (delete k (pendingExecutions s)) s)).

Lemma post_handled ours data (pg : Page elem) clones id r (s : bridge) :
  handled ours data s (post pg clones (DOM_RESULT id r) s).2.
Proof. unfold post. destruct (contentWindow pg), clones; constructor. Qed.

Lemma listener_handled (pg : Page elem) (g : Globals jsobj) source data (s : bridge) :
  handled (negb (foreign pg source)) data s (listener pg g source data s).2.
Proof.
  destruct (foreign pg source) eqn:Hforeign.
  { unfold listener. rewrite Hforeign. constructor. }
  apply foreign_passes in Hforeign as ->. simpl.
  destruct data as [| | | | | |fields];
    try (unfold listener; rewrite foreign_sandbox; simpl; constructor).
  destruct (str_is (assoc "type" fields) "EXECUTION_RESULT"
            || str_is (assoc "type" fields) "EXECUTION_ERROR") eqn:Htype.
  - destruct (assoc "id" fields) as [| | | |k| |] eqn:Hid.
    5:{ assert (response_to k (VObj fields) = true) as Hresp.
        { simpl. rewrite Htype, Hid. simpl. by rewrite String.eqb_refl. }
        destruct (pendingExecutions s !! k) as [c|] eqn:Hpending.
        - rewrite (listener_response pg g _ k c s Hresp Hpending). by econstructor.
        - rewrite (listener_late_response pg g _ k s Hresp Hpending). constructor. }
    all: unfold listener; rewrite foreign_sandbox;
      unfold bind, lift, gets, modify, ret; simpl; rewrite Hid;
      apply orb_true_iff in Htype as [Htype|Htype];
      rewrite (str_is_eq _ _ Htype); simpl; constructor.
  - apply orb_false_iff in Htype as [Hres Herr].
    unfold listener. rewrite foreign_sandbox.
    unfold bind at 1 2 3 4 5, lift. simpl. rewrite Hres, Herr. simpl.
    destruct (str_is (assoc "type" fields) "SANDBOX_READY"); [constructor|].
    destruct (str_is (assoc "type" fields) "DOM_QUERY").
    { unfold bind, lift.
      destruct (querySelector pg (assoc "selector" fields)); simpl;
        [apply post_handled|constructor]. }
    destruct (str_is (assoc "type" fields) "DOM_QUERY_ALL").
    { unfold bind, lift.
      destruct (querySelectorAll pg (assoc "selector" fields)); simpl;
        [apply post_handled|constructor]. }
    destruct (str_is (assoc "type" fields) "DOCUMENT_QUERY").
    { unfold bind. pose proof (document_details_state pg s) as Hstate.
      destruct (document_details pg s) as [[v|e] s']; simpl in *; subst;
        [apply post_handled|constructor]. }
    destruct (str_is (assoc "type" fields) "CUSTOM_QUERY");
      [apply post_handled|constructor].
Qed.

(** *** What every operation leaves alone *)

Ltac unfold_ops :=
  unfold fire, callback, resume, dispatch, execute, finish, settle, postMessage,
    set_timer, clear_timer, pending_delete in *.

Ltac crush_ops :=
  unfold_ops; repeat (case_match || case_decide); simpl in *; try done.


Lemma ready_fire (s : bridge) t : ready (fire s t) = ready s.
Proof. crush_ops. Qed.


Lemma ready_fold l : forall s : bridge, ready (fold_left fire l s) = ready s.
Proof.
  induction l as [|t l IH]; intros s; simpl; [done|]. by rewrite IH, ready_fire.
Qed.


Lemma ready_tick (s : bridge) : ready (tick s) = ready s.
Proof. unfold tick. by rewrite ready_fold. Qed.


Lemma ready_ticks n : forall s : bridge, ready (ticks n s) = ready s.
Proof.
  induction n as [|n IH]; intros s; simpl; [done|]. by rewrite IH, ready_tick.
Qed.




Lemma run_cons (e : event) evs (s : bridge) :
  run (e :: evs) s = run evs (step s e).
Proof. reflexivity. Qed.


Lemma elapsed_app (evs evs' : list event) :
  elapsed (evs ++ evs') = (elapsed evs + elapsed evs')%Z.
Proof.
  induction evs as [|e evs IH]; simpl; [done|]. rewrite IH. destruct e; lia.
Qed.





(** *** The log of posted messages only grows *)

Definition is_issue (id : string) (m : @outgoing jsobj) : bool :=
  match m with
  | EXECUTE_CODE _ id' => String.eqb id' id
  | DOM_RESULT _ _ => false
  end.

(** How many times the id [id] was sent to the sandbox. *)
Definition issue_count (id : string) (l : list (@outgoing jsobj)) : nat :=
  length (List.filter (is_issue id) l).

Lemma issue_count_app id l l' :
  issue_count id (l ++ l') = issue_count id l + issue_count id l'.
Proof. unfold issue_count. by rewrite List.filter_app, length_app. Qed.















(** *** What holds of every state the bridge reaches *)

Record consistent (s : bridge) : Prop := {
  fresh_promise : forall c, next_call s <= c -> promises s !! c = None;
  fresh_waiting : forall c, next_call s <= c -> waiting s !! c = None;
  timers_known : forall d t, (d, t) ∈ timers s -> timer_call t < next_call s;
  pending_known : forall id c,
    pendingExecutions s !! id = Some c ->
    c < next_call s /\ 0 < issue_count id (posted s);
  timeouts_issued : forall d c id,
    (d, ExecutionTimeout c id) ∈ timers s -> 0 < issue_count id (posted s)
}.

Lemma consistent_new t0 : consistent (new_bridge t0).
Proof. split; simpl; intros; try done; set_solver. Qed.

Lemma consistent_set_ready b (s : bridge) : consistent s -> consistent (set_ready b s).
Proof. intros []. by split. Qed.

Lemma consistent_set_now t (s : bridge) : consistent s -> consistent (set_now t s).
Proof. intros []. by split. Qed.

Lemma consistent_post m (s : bridge) : consistent s -> consistent (postMessage m s).
Proof.
  intros [F1 F2 F3 F4 F5]. split; simpl; try done.
  - intros id c Hp. destruct (F4 _ _ Hp). rewrite issue_count_app. split; lia.
  - intros d c id Ht. specialize (F5 _ _ _ Ht). rewrite issue_count_app. lia.
Qed.

Lemma consistent_settle c how (s : bridge) :
  c < next_call s -> consistent s -> consistent (settle c how s).
Proof.
  intros Hc [F1 F2 F3 F4 F5]. unfold settle. case_match; [done|].
  split; simpl; try done.
  intros c' Hc'. rewrite lookup_insert_ne by lia. by apply F1.
Qed.

Lemma consistent_delete_pending k (s : bridge) :
  consistent s -> consistent (set_pending (delete k (pendingExecutions s)) s).
Proof.
  intros [F1 F2 F3 F4 F5]. split; simpl; try done.
  intros id c Hp. apply lookup_delete_Some in Hp as [_ Hp]. by apply F4.
Qed.

Lemma consistent_clear_timer t (s : bridge) :
  consistent s -> consistent (clear_timer t s).
Proof.
  intros [F1 F2 F3 F4 F5]. split; simpl; try done.
  - intros d t' Ht. apply list_elem_of_filter in Ht as [_ Ht]. by eapply F3.
  - intros d c id Ht. apply list_elem_of_filter in Ht as [_ Ht]. by eapply F5.
Qed.

Lemma consistent_set_timer ms t (s : bridge) :
  timer_call t < next_call s ->
  (forall c id, t = ExecutionTimeout c id -> 0 < issue_count id (posted s)) ->
  consistent s -> consistent (set_timer ms t s).
Proof.
  intros Hc Hid [F1 F2 F3 F4 F5]. split; simpl; try done.
  - intros d t' [Ht|[= -> ->]%list_elem_of_singleton]%elem_of_app; [by eapply F3|done].
  - intros d c id [Ht|Hnew%list_elem_of_singleton]%elem_of_app; [by eapply F5|].
    injection Hnew as _ Hnew. by eapply Hid.
Qed.

Lemma consistent_delete_waiting c (s : bridge) :
  consistent s -> consistent (set_waiting (delete c (waiting s)) s).
Proof.
  intros [F1 F2 F3 F4 F5]. split; simpl; try done.
  intros c' Hc'. apply lookup_delete_None. right. by apply F2.
Qed.

Lemma issue_count_own id code (l : list (@outgoing jsobj)) :
  issue_count id (l ++ [EXECUTE_CODE code id]) = S (issue_count id l).
Proof.
  rewrite issue_count_app. unfold issue_count at 2. simpl.
  rewrite String.eqb_refl. simpl. lia.
Qed.


Lemma consistent_dispatch c code rnd (s : bridge) :
  c < next_call s -> consistent s -> consistent (dispatch c code rnd s).
Proof.
  intros Hc Hs. unfold dispatch.
  apply consistent_set_timer; simpl; [done| |].
  - intros c' id [= _ <-]. rewrite issue_count_own. lia.
  - apply (consistent_post (EXECUTE_CODE code (gen_id (now s) rnd))) in Hs.
    destruct Hs as [F1 F2 F3 F4 F5]. split; simpl in *; try done.
    intros id c' Hp. apply lookup_insert_Some in Hp as [[<- <-]|[_ Hp]].
    + rewrite issue_count_own. split; [done|lia].
    + by apply F4.
Qed.

Lemma waiting_known c (s : bridge) :
  consistent s -> is_Some (waiting s !! c) -> c < next_call s.
Proof.
  intros Hs [v Hv]. destruct (decide (c < next_call s)); [done|].
  rewrite (fresh_waiting s Hs c) in Hv by lia. done.
Qed.

Lemma consistent_resume c (s : bridge) : consistent s -> consistent (resume c s).
Proof.
  intros Hs. unfold resume.
  destruct (waiting s !! c) as [[code rnd]|] eqn:Hw; [|done].
  assert (c < next_call s) by (by eapply waiting_known).
  apply (consistent_delete_waiting c) in Hs.
  destruct (negb _).
  - by apply consistent_settle.
  - by apply consistent_dispatch.
Qed.

Lemma consistent_callback t (s : bridge) :
  timer_call t < next_call s -> consistent s -> consistent (callback t s).
Proof.
  intros Hc Hs. destruct t as [c|c|c id]; simpl in *.
  - destruct (ready s); [|done]. by apply consistent_resume, consistent_clear_timer.
  - by apply consistent_resume, consistent_clear_timer.
  - destruct (pendingExecutions s !! id); [|done].
    apply consistent_settle; [done|]. by apply consistent_delete_pending.
Qed.

Lemma consistent_fire (s : bridge) t : consistent s -> consistent (fire s t).
Proof.
  intros Hs. unfold fire. case_decide as Hin; [|done].
  pose proof (timers_known s Hs _ _ Hin) as Hc.
  apply consistent_callback.
  - by destruct t.
  - apply (consistent_clear_timer t) in Hs.
    destruct t; try done. apply consistent_set_timer; try done.
Qed.

Lemma consistent_fold l : forall s : bridge,
  consistent s -> consistent (fold_left fire l s).
Proof.
  induction l as [|t l IH]; intros s Hs; simpl; [done|].
  by apply IH, consistent_fire.
Qed.

Lemma consistent_tick (s : bridge) : consistent s -> consistent (tick s).
Proof. intros Hs. unfold tick. by apply consistent_fold, consistent_set_now. Qed.

Lemma consistent_ticks n : forall s : bridge, consistent s -> consistent (ticks n s).
Proof.
  induction n as [|n IH]; intros s Hs; simpl; [done|]. by apply IH, consistent_tick.
Qed.

Lemma consistent_handled ours data (s s' : bridge) :
  handled ours data s s' -> consistent s -> consistent s'.
Proof.
  intros Hh Hs. destruct Hh as [| |id r|k c _ _ Hp].
  - done.
  - by apply consistent_set_ready.
  - by apply consistent_post.
  - destruct (pending_known s Hs _ _ Hp) as [Hc _].
    apply (consistent_delete_pending k) in Hs.
    destruct (settlement_of data); simpl; [|done]. by apply consistent_settle.
Qed.

Lemma consistent_execute code rnd (s : bridge) :
  consistent s -> consistent (execute code rnd s).2.
Proof.
  intros Hs.
  assert (Hnext : consistent (set_next_call (S (next_call s)) s)).
  { destruct Hs as [F1 F2 F3 F4 F5]. split; simpl.
    - intros c Hc. apply F1. lia.
    - intros c Hc. apply F2. lia.
    - intros d t Ht. specialize (F3 _ _ Ht). lia.
    - intros id c Hp. destruct (F4 _ _ Hp). split; [lia|done].
    - done. }
  unfold execute. simpl. destruct (negb (ready s)); simpl.
  - apply consistent_set_timer; simpl; [lia|done|].
    apply consistent_set_timer; simpl; [lia|done|].
    destruct Hnext as [F1 F2 F3 F4 F5]. split; simpl in *; try done.
    intros c Hc. rewrite lookup_insert_ne by lia. by apply F2.
  - apply consistent_dispatch; simpl; [lia|done].
Qed.

Lemma consistent_step (s : bridge) (e : event) :
  consistent s -> consistent (step s e).
Proof.
  intros Hs. destruct e as [ms|pg g source data|code rnd]; simpl.
  - by apply consistent_ticks.
  - eapply consistent_handled; [apply listener_handled|done].
  - by apply consistent_execute.
Qed.

Lemma consistent_run (evs : list event) : forall s : bridge,
  consistent s -> consistent (run evs s).
Proof.
  induction evs as [|e evs IH]; intros s Hs; [done|].
  rewrite run_cons. by apply IH, consistent_step.
Qed.

(** A state the bridge can be in: some events after its construction. *)
Definition reachable (s : bridge) : Prop :=
  exists t0 (evs : list event), s = run evs (new_bridge t0).

Lemma reachable_consistent (s : bridge) : reachable s -> consistent s.
Proof. intros (t0 & evs & ->). apply consistent_run, consistent_new. Qed.

(** *** Two calls in flight *)



(** *** One call in flight, and its timeout *)

Section InFlight.
Variables (c : call) (id : string) (due : Z).

































Lemma due_at_elem d t (l : list (Z * timer)) : (d, t) ∈ l -> t ∈ due_at d l.
Proof.
  intros Hin. unfold due_at. apply list_elem_of_fmap. exists (d, t). split; [done|].
  by apply list_elem_of_filter.
Qed.





Lemma response_to_id k k' data :
  response_to k data = true -> response_to k' data = true -> k = k'.
Proof.
  destruct data as [| | | | | |fields]; try done. simpl.
  intros [_ H1%str_is_eq]%andb_true_iff [_ H2%str_is_eq]%andb_true_iff. congruence.
Qed.







End InFlight.




(** *** Following one timer through a tick *)

Lemma fold_stable (Q : bridge -> Prop) :
  (forall s t, Q s -> Q (fire s t)) ->
  forall l s, Q s -> Q (fold_left fire l s).
Proof.
  intros HQ l. induction l as [|t l IH]; intros s Hs; simpl; [done|]. by apply IH, HQ.
Qed.


(** *** A call that waits for the sandbox *)

Section Waiting.
Variables (c : call) (code : value) (rnd : string) (t0 : Z).




















































(** *** From the wait into flight *)
















End Waiting.




(** *** The queries the sandbox sends *)


Lemma substring_start n : forall text : string,
  exists rest, text = String.substring 0 n text +:+ rest
               /\ String.length (String.substring 0 n text) = n `min` String.length text.
Proof.
  induction n as [|n IH]; intros [|a text]; simpl.
  - by exists "".
  - by exists (String a text).
  - by exists "".
  - destruct (IH text) as (rest & Htext & Hlen). exists rest.
    rewrite append_cons. split; [by rewrite <- Htext|by rewrite Hlen].
Qed.

(** X11.  [DOCUMENT_QUERY] from the sandbox's window is answered with one
    [DOM_RESULT] that carries the id of the query; the [innerHTML] it
    reports of the body is the first 500 characters of the body's markup,
    all of it when it is shorter.  While the document has no [body] (or no
    root element) the listener throws instead: nothing is posted and the
    bridge is left as it was. *)
Theorem document_query_answered (pg : Page elem) (g : Globals jsobj) fields (s : bridge) w :
  assoc "type" fields = VStr "DOCUMENT_QUERY" ->
  contentWindow pg = Some w ->
  let id := assoc "id" fields in
  let deliver := listener pg g (Some w) (VObj fields) s in
  (forall docResult,
     (document_details pg s).1 = Return docResult ->
     deliver = (Return tt, postMessage (DOM_RESULT id (Plain docResult)) s)
     /\ exists bd reported shown rest,
          body pg = Some bd
          /\ get_field docResult "body" = Return reported
          /\ get_field reported "innerHTML" = Return (VStr shown)
          /\ innerHTML pg bd = shown +:+ rest
          /\ String.length shown = 500 `min` String.length (innerHTML pg bd))
  /\ (documentElement pg = None \/ body pg = None ->
      exists e, deliver = (Throw e, s)).
Proof.
  intros Htype Hw id deliver.
  assert (Hdeliver : deliver =
    match (document_details pg s).1 with
    | Return docResult => (Return tt, postMessage (DOM_RESULT id (Plain docResult)) s)
    | Throw e => (Throw e, s)
    end).
  { unfold deliver, listener. rewrite <- Hw, foreign_sandbox.
    unfold bind at 1 2 3 4 5, lift. simpl. rewrite Htype. simpl.
    unfold bind at 1. pose proof (document_details_state pg s) as Hstate.
    destruct (document_details pg s) as [[v|e] s']; simpl in *; subst; [|done].
    by rewrite (post_attached pg w). }
  split.
  - intros docResult Hdoc. rewrite Hdeliver, Hdoc. split; [done|].
    unfold document_details, bind, lift, ret in Hdoc.
    destruct (documentElement pg) as [de|]; simpl in Hdoc; [|done].
    destruct (body pg) as [bd|]; simpl in Hdoc; [|done].
    repeat match type of Hdoc with
           | context [match ?x with _ => _ end] => destruct x; simpl in Hdoc; try done
           end.
    injection Hdoc as <-.
    destruct (substring_start 500 (innerHTML pg bd)) as (rest & Htext & Hlen).
    eexists bd, _, (String.substring 0 500 (innerHTML pg bd)), rest.
    split_and!; [done|reflexivity|reflexivity|done|done].
  - intros Hmissing. rewrite Hdeliver.
    unfold document_details, bind, lift, ret.
    destruct Hmissing as [-> | Hbody]; simpl; [by eauto|].
    destruct (documentElement pg); simpl; [|by eauto].
    rewrite Hbody. simpl. by eauto.
Qed.

(** *** Readiness *)

(** [{type: 'SANDBOX_READY'}] in a message that passes the source check:
    its source is the [contentWindow] the iframe has at that moment. *)
Definition announces_ready (e : event) : bool :=
  match e with
  | Deliver pg _ source (VObj fields) =>
      negb (foreign pg source) && str_is (assoc "type" fields) "SANDBOX_READY"
  | _ => false
  end.

Lemma listener_keeps_ready (pg : Page elem) (g : Globals jsobj) source fields (s : bridge) :
  str_is (assoc "type" fields) "SANDBOX_READY" = false ->
  ready (listener pg g source (VObj fields) s).2 = ready s.
Proof.
  intros Htype. unfold listener. destruct (foreign pg source); [done|].
  assert (Hpost : forall clones m, ready (post pg clones m s).2 = ready s).
  { intros clones m. unfold post. by destruct (contentWindow pg), clones. }
  unfold bind at 1 2 3 4 5, lift. simpl. rewrite Htype.
  destruct (str_is (assoc "type" fields) "DOM_QUERY").
  { unfold bind, lift.
    destruct (querySelector pg (assoc "selector" fields)); [apply Hpost|done]. }
  destruct (str_is (assoc "type" fields) "DOM_QUERY_ALL").
  { unfold bind, lift.
    destruct (querySelectorAll pg (assoc "selector" fields)); [apply Hpost|done]. }
  destruct (str_is (assoc "type" fields) "DOCUMENT_QUERY").
  { unfold bind. pose proof (document_details_state pg s) as Hstate.
    destruct (document_details pg s) as [[v|e] s']; simpl in *; subst;
      [apply Hpost|done]. }
  destruct (str_is (assoc "type" fields) "CUSTOM_QUERY"); [apply Hpost|].
  destruct (_ || _); [|done].
  unfold bind, gets, modify, lift, ret. simpl.
  destruct (pending_get (assoc "id" fields) s); [|done]. simpl.
  unfold settle, pending_delete.
  repeat (case_match; simpl; try done).
Qed.

Lemma step_ready (s : bridge) (e : event) :
  ready (step s e) = ready s || announces_ready e.
Proof.
  destruct e as [ms|pg g source data|code rnd]; simpl.
  - by rewrite ready_ticks, orb_false_r.
  - destruct (foreign pg source) eqn:Hforeign.
    { unfold listener. rewrite Hforeign. simpl.
      destruct data; simpl; by rewrite orb_false_r. }
    destruct data as [| | | | | |fields];
      try (unfold listener; rewrite Hforeign; simpl; by rewrite orb_false_r).
    simpl. destruct (str_is (assoc "type" fields) "SANDBOX_READY") eqn:Htype.
    + unfold listener. rewrite Hforeign. unfold bind, lift, modify. simpl.
      rewrite Htype. simpl. by rewrite orb_true_r.
    + rewrite orb_false_r. by apply listener_keeps_ready.
  - rewrite orb_false_r. crush_ops.
Qed.

(** X12.  The bridge is ready exactly when a [SANDBOX_READY] has passed
    the source check: after any run, the flag is set if it was set before
    or if one of the messages was a [SANDBOX_READY] whose source was the
    [contentWindow] of the iframe at that moment (the sandbox's window
    while the iframe is in the document; [null] once it has been taken
    out).  Nothing else sets it, and nothing ever clears it. *)
Theorem ready_iff_announced (evs : list event) (s : bridge) :
  ready (run evs s) = ready s || existsb announces_ready evs.
Proof.
  revert s. induction evs as [|e evs IH]; intros s; simpl.
  - by rewrite orb_false_r.
  - change (run (e :: evs) s)
      with (run evs (step s e)).
    by rewrite IH, step_ready, orb_assoc.
Qed.

(** *** Settled once *)

Section Settled.
Variables (c : call) (h : settlement).

Definition settled (s : bridge) : Prop := promises s !! c = Some h.

Lemma settled_frame (s s' : bridge) : promises s' = promises s -> settled s -> settled s'.
Proof. unfold settled. by intros ->. Qed.

Lemma settled_settle c' how (s : bridge) : settled s -> settled (settle c' how s).
Proof.
  unfold settled, settle. intros Hs. case_match eqn:Hc'; [done|]. simpl.
  rewrite lookup_insert_ne; [done|]. congruence.
Qed.

Lemma settled_resume c' (s : bridge) : settled s -> settled (resume c' s).
Proof.
  intros Hs. unfold resume. destruct (waiting s !! c') as [[code rnd]|]; [|done].
  destruct (negb _).
  - apply settled_settle. by apply (settled_frame s).
  - by apply (settled_frame s).
Qed.

Lemma settled_fire (s : bridge) t : settled s -> settled (fire s t).
Proof.
  intros Hs. unfold fire. case_decide; [|done].
  destruct t as [c'|c'|c' id']; simpl.
  - destruct (ready s); [|by apply (settled_frame s)].
    apply settled_resume. by apply (settled_frame s).
  - apply settled_resume. by apply (settled_frame s).
  - destruct (pendingExecutions s !! id'); [|by apply (settled_frame s)].
    apply settled_settle. by apply (settled_frame s).
Qed.

Lemma settled_ticks n : forall s : bridge, settled s -> settled (ticks n s).
Proof.
  induction n as [|n IH]; intros s Hs; simpl; [done|]. apply IH. unfold tick.
  apply (fold_stable settled); [apply settled_fire|]. by apply (settled_frame s).
Qed.

Lemma settled_step (s : bridge) (e : event) :
  settled s -> settled (step s e).
Proof.
  intros Hs. destruct e as [ms|pg g source data|code' rnd']; simpl.
  - by apply settled_ticks.
  - destruct (listener_handled pg g source data s) as [| |i r|k c' _ _ _];
      try (by apply (settled_frame s)).
    destruct (settlement_of data); simpl.
    + apply settled_settle. by apply (settled_frame s).
    + by apply (settled_frame s).
  - unfold execute. simpl. destruct (negb (ready s)); simpl; by apply (settled_frame s).
Qed.

End Settled.

(** X13.  A promise is settled once.  Whatever settled a call first (its
    response, its timeout, the failed wait for the sandbox) stands in every
    later state: no later response, timer or call changes the outcome. *)
Theorem settlement_is_final (evs : list event) (s : bridge) c h :
  promises s !! c = Some h -> promises (run evs s) !! c = Some h.
Proof.
  revert s. induction evs as [|e evs IH]; intros s Hs; [done|].
  rewrite run_cons. apply IH. by apply settled_step.
Qed.

(** X14.  Responses are matched by id against the table and nothing
    else.  A response whose id is not in the table (never sent, already
    answered, already timed out) changes nothing at all; so a response
    delivered twice counts once. *)
Theorem repeated_response_ignored (pg pg' : Page elem) (g g' : Globals jsobj)
    id data (s : bridge) :
  response_to id data = true ->
  let once := (listener pg g (contentWindow pg) data s).2 in
  (pendingExecutions s !! id = None ->
   listener pg g (contentWindow pg) data s = (Return tt, s))
  /\ pendingExecutions once !! id = None
  /\ listener pg' g' (contentWindow pg') data once = (Return tt, once).
Proof.
  intros Hresp once.
  assert (Hgone : pendingExecutions once !! id = None).
  { unfold once. destruct (pendingExecutions s !! id) as [c|] eqn:Hp.
    - rewrite (listener_response pg g data id c s Hresp Hp).
      unfold finish, settle. repeat case_match; simpl; by rewrite lookup_delete_eq.
    - by rewrite (listener_late_response pg g data id s Hresp Hp). }
  split_and!.
  - by apply listener_late_response.
  - done.
  - by apply (listener_late_response pg' g' data id).
Qed.

(** *** A call no one answers any more *)

Section Stranded.
Variables (c : call) (id : string).
















End Stranded.



(** *** No record without a timeout, no interval without a wait *)

(** Every record in the table has a timeout of its id armed: one that is
    due later, or one due now that is [still] to fire in this tick. *)
Definition covered (still : timer -> Prop) (s : bridge) : Prop :=
  forall id c, pendingExecutions s !! id = Some c ->
    exists d c', (d, ExecutionTimeout c' id) ∈ timers s
      /\ (d <= now s + 30000)%Z
      /\ ((now s < d)%Z \/ (d = now s /\ still (ExecutionTimeout c' id))).

Lemma covered_mono (P Q : timer -> Prop) (s : bridge) :
  (forall c id, P (ExecutionTimeout c id) -> Q (ExecutionTimeout c id)) ->
  covered P s -> covered Q s.
Proof.
  intros HPQ Hs id c Hp. destruct (Hs id c Hp) as (d & c' & Hin & Hle & Hd).
  exists d, c'. split_and!; [done..|]. destruct Hd as [?|[? ?]]; [by left|right; eauto].
Qed.

Lemma covered_grow (P : timer -> Prop) (s s' : bridge) :
  pendingExecutions s' = pendingExecutions s -> now s' = now s ->
  (forall dt, dt ∈ timers s -> dt ∈ timers s') ->
  covered P s -> covered P s'.
Proof.
  intros Hp Hn Ht Hs id c Hid. rewrite Hp in Hid. rewrite Hn.
  destruct (Hs id c Hid) as (d & c' & Hin & Hd). exists d, c'. split; [by apply Ht|done].
Qed.

Lemma covered_delete (P : timer -> Prop) k (s : bridge) :
  covered P s -> covered P (set_pending (delete k (pendingExecutions s)) s).
Proof.
  intros Hs id c Hid. simpl in *. apply lookup_delete_Some in Hid as [_ Hid].
  by apply Hs in Hid.
Qed.

Lemma covered_settle (P : timer -> Prop) c how (s : bridge) :
  covered P s -> covered P (settle c how s).
Proof. unfold settle. case_match; [done|]. by apply covered_grow. Qed.

Lemma covered_dispatch (P : timer -> Prop) c code rnd (s : bridge) :
  covered P s -> covered P (dispatch c code rnd s).
Proof.
  intros Hs id c0 Hid. unfold dispatch in *. simpl in *.
  apply lookup_insert_Some in Hid as [[<- <-]|[_ Hid]].
  - exists (now s + 30000)%Z, c. split_and!; [|lia|left; lia].
    apply elem_of_app. right. by apply list_elem_of_singleton.
  - destruct (Hs id c0 Hid) as (d & c' & Hin & Hd). exists d, c'.
    split; [|done]. apply elem_of_app. by left.
Qed.

Lemma covered_clear (P : timer -> Prop) t (s : bridge) :
  (forall c id, t <> ExecutionTimeout c id) ->
  covered P s -> covered P (clear_timer t s).
Proof.
  intros Ht Hs id c Hid. simpl in *.
  destruct (Hs id c Hid) as (d & c' & Hin & Hd). exists d, c'. split; [|done].
  apply list_elem_of_filter. split; [|done]. simpl. intros Heq. by eapply Ht.
Qed.

Lemma covered_set_timer (P : timer -> Prop) ms t (s : bridge) :
  covered P s -> covered P (set_timer ms t s).
Proof.
  apply covered_grow; [done..|]. intros dt Hin. simpl. apply elem_of_app. by left.
Qed.

Lemma covered_resume (P : timer -> Prop) c (s : bridge) :
  covered P s -> covered P (resume c s).
Proof.
  intros Hs. unfold resume. destruct (waiting s !! c) as [[code rnd]|]; [|done].
  assert (covered P (set_waiting (delete c (waiting s)) s)) as Hs'.
  { by apply (covered_grow P s). }
  destruct (negb _); [by apply covered_settle|by apply covered_dispatch].
Qed.

Lemma covered_fire t l (s : bridge) :
  covered (fun x => x ∈ t :: l) s -> covered (fun x => x ∈ l) (fire s t).
Proof.
  intros Hs. unfold fire. case_decide as Hdue.
  - assert (Hrest : forall t', t' <> t -> t' ∈ t :: l -> t' ∈ l).
    { intros t' Hne [?|?]%elem_of_cons; done. }
    destruct t as [c0|c0|c0 id0]; simpl.
    + assert (covered (fun x => x ∈ l)
                (set_timer 50 (ReadyCheck c0) (clear_timer (ReadyCheck c0) s))) as Hs'.
      { apply covered_set_timer, covered_clear; [done|].
        eapply covered_mono; [|exact Hs]. intros c id. by apply Hrest. }
      destruct (ready _); [|done]. by apply covered_resume, covered_clear.
    + apply covered_resume, covered_clear; [done|]. apply covered_clear; [done|].
      eapply covered_mono; [|exact Hs]. intros c id. by apply Hrest.
    + assert (Hothers : forall id c,
                id <> id0 -> pendingExecutions s !! id = Some c ->
                exists d c', (d, ExecutionTimeout c' id)
                               ∈ timers (clear_timer (ExecutionTimeout c0 id0) s)
                  /\ (d <= now s + 30000)%Z
                  /\ ((now s < d)%Z \/ (d = now s /\ ExecutionTimeout c' id ∈ l))).
      { intros id c Hne Hid. destruct (Hs id c Hid) as (d & c' & Hin & Hle & Hd).
        exists d, c'. split_and!; [|done|].
        - apply list_elem_of_filter. split; [|done]. simpl. congruence.
        - destruct Hd as [?|[? Hl]]; [by left|right]. split; [done|].
          apply Hrest; [congruence|done]. }
      destruct (pendingExecutions s !! id0) as [c1|] eqn:Hp0.
      * apply covered_settle. intros id c Hid. simpl in *.
        apply lookup_delete_Some in Hid as [Hne Hid].
        apply (Hothers id c); [congruence|done].
      * intros id c Hid. simpl in *. apply (Hothers id c); [congruence|done].
  - intros id c Hid. destruct (Hs id c Hid) as (d & c' & Hin & Hle & Hd).
    exists d, c'. split_and!; [done..|]. destruct Hd as [?|[-> Hl]]; [by left|right].
    split; [done|]. apply elem_of_cons in Hl as [<-|?]; [done|done].
Qed.

Lemma covered_fold l : forall s : bridge,
  covered (fun x => x ∈ l) s -> covered (fun _ => False) (fold_left fire l s).
Proof.
  induction l as [|t l IH]; intros s Hs; simpl.
  - eapply covered_mono; [|exact Hs]. intros c id Hin. by apply elem_of_nil in Hin.
  - by apply IH, covered_fire.
Qed.

Lemma covered_tick (s : bridge) :
  covered (fun _ => False) s -> covered (fun _ => False) (tick s).
Proof.
  intros Hs. unfold tick. apply covered_fold. intros id c Hid. simpl in *.
  destruct (Hs id c Hid) as (d & c' & Hin & Hle & [Hlt|[_ []]]).
  exists d, c'. split_and!; [done|lia|].
  destruct (decide (d = now s + 1)%Z) as [->|]; [right|left; lia].
  split; [done|]. by apply due_at_elem.
Qed.

Lemma covered_ticks n : forall s : bridge,
  covered (fun _ => False) s -> covered (fun _ => False) (ticks n s).
Proof.
  induction n as [|n IH]; intros s Hs; simpl; [done|]. by apply IH, covered_tick.
Qed.

Lemma covered_step (s : bridge) (e : event) :
  covered (fun _ => False) s -> covered (fun _ => False) (step s e).
Proof.
  intros Hs. destruct e as [ms|pg g source data|code rnd]; simpl.
  - by apply covered_ticks.
  - destruct (listener_handled pg g source data s) as [| |i r|k c _ _ _].
    + done.
    + by apply (covered_grow _ s).
    + by apply (covered_grow _ s).
    + apply (covered_delete _ k) in Hs. destruct (settlement_of data); simpl; [|done].
      by apply covered_settle.
  - unfold execute. simpl. destruct (negb (ready s)); simpl.
    + do 2 apply covered_set_timer. by apply (covered_grow _ s).
    + apply covered_dispatch. by apply (covered_grow _ s).
Qed.

Lemma covered_run (evs : list event) : forall s : bridge,
  covered (fun _ => False) s -> covered (fun _ => False) (run evs s).
Proof.
  induction evs as [|e evs IH]; intros s Hs; [done|].
  rewrite run_cons. by apply IH, covered_step.
Qed.

(** X17.  The table does not leak.  In every state the bridge reaches,
    each record in the table belongs to a call that was made, under an id
    that was sent to the sandbox, and a timeout for that id is armed and
    due within the next 30 seconds: no record is left for which no
    timeout will look. *)
Theorem records_have_timeouts (s : bridge) id c :
  reachable s ->
  pendingExecutions s !! id = Some c ->
  c < next_call s
  /\ 0 < issue_count id (posted s)
  /\ exists d c', (d, ExecutionTimeout c' id) ∈ timers s
                  /\ (now s < d <= now s + 30000)%Z.
Proof.
  intros Hreach Hid.
  destruct (pending_known s (reachable_consistent s Hreach) id c Hid) as [Hc Hsent].
  split; [done|]. split; [done|].
  assert (Hcovered : covered (fun _ => False) s).
  { destruct Hreach as (t0 & evs & ->). by apply covered_run. }
  destruct (Hcovered id c Hid) as (d & c' & Hin & Hle & [Hlt|[_ []]]).
  exists d, c'. split; [done|lia].
Qed.

(** Every armed polling interval belongs to a call that still waits. *)
Definition polled (s : bridge) : Prop :=
  forall d c, (d, ReadyCheck c) ∈ timers s -> is_Some (waiting s !! c).

Lemma polled_frame (s s' : bridge) :
  waiting s' = waiting s -> (forall dt, dt ∈ timers s' -> dt ∈ timers s) ->
  polled s -> polled s'.
Proof. intros Hw Ht Hs d c Hin. rewrite Hw. apply (Hs d), Ht, Hin. Qed.

Lemma polled_clear t (s : bridge) : polled s -> polled (clear_timer t s).
Proof.
  apply polled_frame; [done|]. intros dt Hin. simpl in Hin.
  by apply list_elem_of_filter in Hin as [_ Hin].
Qed.

Lemma polled_set_timer ms t (s : bridge) :
  (forall c, t = ReadyCheck c -> is_Some (waiting s !! c)) ->
  polled s -> polled (set_timer ms t s).
Proof.
  intros Ht Hs d c [Hin|Hin%list_elem_of_singleton]%elem_of_app; simpl.
  - by apply (Hs d).
  - injection Hin as _ Hin. by apply Ht.
Qed.

Lemma polled_settle c how (s : bridge) : polled s -> polled (settle c how s).
Proof. unfold settle. case_match; [done|]. by apply polled_frame. Qed.

Lemma polled_dispatch c code rnd (s : bridge) : polled s -> polled (dispatch c code rnd s).
Proof.
  intros Hs. unfold dispatch. apply polled_set_timer; [done|]. by apply (polled_frame s).
Qed.

(** The call leaves the wait with its interval cleared. *)
Lemma polled_resume c (s : bridge) : polled s -> polled (resume c (clear_timer (ReadyCheck c) s)).
Proof.
  intros Hs. unfold resume.
  destruct (waiting (clear_timer (ReadyCheck c) s) !! c) as [[code rnd]|];
    [|by apply polled_clear].
  assert (polled (set_waiting (delete c (waiting (clear_timer (ReadyCheck c) s)))
                    (clear_timer (ReadyCheck c) s))) as Hs'.
  { intros d c' Hin. simpl in *. apply list_elem_of_filter in Hin as [Hne Hin].
    simpl in Hne. rewrite lookup_delete_ne by congruence. by apply (Hs d). }
  destruct (negb _); [by apply polled_settle|by apply polled_dispatch].
Qed.

Lemma polled_fire (s : bridge) t : polled s -> polled (fire s t).
Proof.
  intros Hs. unfold fire. case_decide as Hdue; [|done].
  destruct t as [c|c|c id]; simpl.
  - assert (polled (set_timer 50 (ReadyCheck c) (clear_timer (ReadyCheck c) s))) as Hs'.
    { apply polled_set_timer; [|by apply polled_clear].
      intros c' [= <-]. simpl. by apply (Hs (now s)). }
    destruct (ready _); [|done]. by apply polled_resume.
  - by apply polled_resume, polled_clear.
  - destruct (pendingExecutions _ !! id); [|by apply polled_clear].
    apply polled_settle. by apply (polled_frame (clear_timer (ExecutionTimeout c id) s)),
      polled_clear.
Qed.

Lemma polled_step (s : bridge) (e : event) : polled s -> polled (step s e).
Proof.
  intros Hs. destruct e as [ms|pg g source data|code rnd]; simpl.
  - generalize (Z.to_nat ms). intros n. revert s Hs.
    induction n as [|n IH]; intros s Hs; simpl; [done|]. apply IH. unfold tick.
    apply (fold_stable polled); [apply polled_fire|]. by apply (polled_frame s).
  - destruct (listener_handled pg g source data s) as [| |i r|k c _ _ _];
      try (by apply (polled_frame s)).
    destruct (settlement_of data); simpl; [|by apply (polled_frame s)].
    apply polled_settle. by apply (polled_frame s).
  - unfold execute. simpl. destruct (negb (ready s)); simpl.
    + apply polled_set_timer; [done|]. apply polled_set_timer.
      { intros c [= <-]. simpl. by rewrite lookup_insert_eq. }
      intros d c Hin. simpl in *.
      destruct (decide (c = next_call s)) as [->|Hne];
        [by rewrite lookup_insert_eq|rewrite lookup_insert_ne by done].
      by apply (Hs d).
    + apply polled_dispatch. by apply (polled_frame s).
Qed.

Lemma polled_run (evs : list event) : forall s : bridge,
  polled s -> polled (run evs s).
Proof.
  induction evs as [|e evs IH]; intros s Hs; [done|].
  rewrite run_cons. by apply IH, polled_step.
Qed.

(** X18.  No interval is left behind.  In every state the bridge reaches,
    an armed readiness interval belongs to a call that is still suspended
    at the wait: the call that was dispatched or rejected has had its
    interval cleared, whichever of its two timers ended the wait. *)
Theorem intervals_belong_to_waiting_calls (s : bridge) d c :
  reachable s ->
  (d, ReadyCheck c) ∈ timers s ->
  exists code rnd, waiting s !! c = Some (code, rnd).
Proof.
  intros (t0 & evs & ->) Hin.
  assert (Hpolled : polled (run evs (new_bridge t0))).
  { apply polled_run. intros d' c' Hnone. by apply elem_of_nil in Hnone. }
  destruct (Hpolled d c Hin) as [[code rnd] Hw]. by exists code, rnd.
Qed.

End BridgeFacts.

(** *** The bridge on the reference page *)

(** [{type: 'SANDBOX_READY'}] *)
Definition ready_message : value := VObj [("type", VStr "SANDBOX_READY")].

(** A message from the sandbox, seen on the reference page. *)
Definition from_the_sandbox (data : value) : @event nat nat :=
  Deliver (reference_page 0) reference_globals (Some the_sandbox) data.


(** A bridge built at time 1000 whose sandbox has reported ready. *)
Definition ready_bridge : @bridge nat :=
  run [from_the_sandbox ready_message] (new_bridge 1000).



(** [{type: 'EXECUTION_RESULT', id, result}] *)
Definition result_message (id : string) (result : value) : value :=
  VObj [("type", VStr "EXECUTION_RESULT"); ("id", VStr id); ("result", result)].

(** [{type: 'EXECUTION_ERROR', id, error: {message}}] *)
Definition error_message (id : string) (text : string) : value :=
  VObj [("type", VStr "EXECUTION_ERROR"); ("id", VStr id);
        ("error", VObj [("message", VStr text)])].

(** C9 as stated fails.  The sandbox answers [return 1+1] with the result
    2; [execute] resolves to 2; the [custom] action answers with 2 itself,
    which is no object and has no [success] field, and the result cookie
    holds the text 2. *)
Lemma custom_result_is_not_wrapped :
  let s := run
             [Call (VStr "return 1+1") "k3x9w2p1q";
              from_the_sandbox (result_message "exec_1000_k3x9w2p1q" (VNum 2))]
             ready_bridge in
  let sandbox : value -> outcome value := fun _ => Return (VNum 2) in
  let cmd := VObj [("action", VStr "custom"); ("code", VStr "return 1+1")] in
  let w : @world nat := World (root_jar [custom_cookie]) [] in
  settled_as (promises s !! 0) = Some (sandbox (VStr "return 1+1"))
  /\ executeCommand reference_page sandbox cmd w = (Return (VNum 2), w)
  /\ get_field (VNum 2) "success" = Return VUndef
  /\ executeCommand reference_page sandbox cmd w <> (Return success_result, w)
  /\ checkForCommands reference_page sandbox w
     = (Return tt, World (root_jar ["pw_status=done"; "pw_result=2"]) []).
Proof. vm_compute. by split_and!. Qed.

Lemma custom_answers_witness :
  let sandbox : value -> outcome value :=
    fun code => if truthy code then Return (VNum 2) else Throw (new_Error "Execution timeout") in
  let w : @world nat := World [] [] in
  executeCommand reference_page sandbox
    (VObj [("action", VStr "custom"); ("code", VStr "return 1+1")]) w
  = (Return (VNum 2), w)
  /\ executeCommand reference_page sandbox
       (VObj [("action", VStr "custom"); ("code", VStr "")]) w
     = (Return (VObj [("error", VStr "Execution timeout");
                      ("stack", VStr "Error: Execution timeout")]), w).
Proof.
  split.
  - exact (proj1 (custom_answers_with_sandbox_result reference_page _
      [("action", VStr "custom"); ("code", VStr "return 1+1")] (World [] []) eq_refl)
      (VNum 2) eq_refl).
  - exact (proj2 (custom_answers_with_sandbox_result reference_page _
      [("action", VStr "custom"); ("code", VStr "")] (World [] []) eq_refl)
      _ eq_refl).
Defined.










(** *** The other handlers and the worker, on the reference page *)

Lemma fillInput_witness :
  executeCommand reference_page no_sandbox
    (VObj [("action", VStr "fillInput"); ("selector", VStr "#name"); ("value", VStr "Ada")])
    (World [] [])
  = (Return (VObj [("success", VBool true)]),
     World [] [Queried (VStr "#name"); ValueSet 2 (VStr "Ada");
               Dispatched 2 "input"; Dispatched 2 "change"]).
Proof.
  exact (proj1 (fillInput_sets_then_notifies reference_page no_sandbox
    [("action", VStr "fillInput"); ("selector", VStr "#name"); ("value", VStr "Ada")]
    (World [] []) eq_refl) 2 eq_refl eq_refl).
Defined.

(** The button [#go] is clicked; the SVG drawing [#icon] has no [click]. *)
Lemma click_present_witness :
  executeCommand reference_page no_sandbox
    (VObj [("action", VStr "click"); ("selector", VStr "#go")]) (World [] [])
  = (Return (VObj [("success", VBool true)]),
     World [] [Queried (VStr "#go"); Clicked 1])
  /\ executeCommand reference_page no_sandbox
       (VObj [("action", VStr "click"); ("selector", VStr "#icon")]) (World [] [])
     = (Return (VObj [("error", VStr "el.click is not a function");
                      ("stack", VStr "TypeError")]),
        World [] [Queried (VStr "#icon")]).
Proof.
  split.
  - exact (proj1 (click_present_element reference_page no_sandbox
      [("action", VStr "click"); ("selector", VStr "#go")] (World [] []) 1
      eq_refl eq_refl) eq_refl).
  - exact (proj2 (click_present_element reference_page no_sandbox
      [("action", VStr "click"); ("selector", VStr "#icon")] (World [] []) 4
      eq_refl eq_refl) _ eq_refl).
Defined.

(** [{"action":"hover"}] *)
Lemma unknown_action_witness :
  executeCommand reference_page no_sandbox (VObj [("action", VStr "hover")])
    (World (root_jar ["a=1"]) [])
  = (Return (VObj [("error", VStr "Unknown action")]), World (root_jar ["a=1"]) []).
Proof.
  assert (Hnone : Forall (fun a => str_is (VStr "hover") a = false) actions)
    by (repeat constructor).
  exact (proj1 (unknown_action_answered reference_page no_sandbox
    (VObj [("action", VStr "hover")]) (VStr "hover") eq_refl Hnone) (World (root_jar ["a=1"]) [])).
Defined.

Lemma other_actions_witness :
  exists l,
    (executeCommand reference_page no_sandbox
       (VObj [("action", VStr "waitForElement"); ("selector", VStr "#late");
              ("timeout", VNum 250)]) (World (root_jar ["a=1"]) [])).2
    = World (root_jar ["a=1"]) ([] ++ l)
    /\ forallb harmless l = true.
Proof.
  apply (other_actions_only_look reference_page no_sandbox
    (VObj [("action", VStr "waitForElement"); ("selector", VStr "#late");
           ("timeout", VNum 250)]) (World (root_jar ["a=1"]) [])).
  intros action [= <-]. by split.
Defined.

Lemma poll_keeps_other_cookies_witness :
  find_cookie "session"
    (cookies (checkForCommands reference_page no_sandbox
                (World (root_jar ["session=abc"; click_none_cookie]) [])).2)
  = Some "session=abc".
Proof.
  exact (poll_keeps_other_cookies reference_page no_sandbox "session"
    (World (root_jar ["session=abc"; click_none_cookie]) [])
    eq_refl ltac:(discriminate) ltac:(discriminate) ltac:(discriminate)).
Defined.

(** [{"action":"waitForElement","selector":"#go"}]: no [timeout]. *)
Lemma waitForElement_without_timeout_witness :
  executeCommand reference_page no_sandbox
    (VObj [("action", VStr "waitForElement"); ("selector", VStr "#go")]) (World [] [])
  = (Return (VObj [("success", VBool false); ("error", VStr "Timeout")]), World [] []).
Proof.
  exact (waitForElement_without_timeout reference_page no_sandbox
    [("action", VStr "waitForElement"); ("selector", VStr "#go")] (World [] [])
    eq_refl eq_refl).
Defined.

(** Two pings 20 seconds apart, then 5 more seconds. *)
Lemma pings_keep_worker_awake_witness :
  let final := worker_run
                 [Passes 20000; Receives ping; Passes 20000; Receives ping; Passes 5000]
                 (start_worker 0) in
  exists k : nat,
    next_check final = (15000 + 15000 * Z.of_nat k)%Z
    /\ (clock final < next_check final <= clock final + 15000)%Z
    /\ storage_reads final = check_times (start_worker 0) k.
Proof.
  apply (pings_keep_worker_awake 0 []
    [Passes 20000; Receives ping; Passes 20000; Receives ping; Passes 5000]).
  vm_compute. reflexivity.
Defined.

Lemma content_pings_witness :
  let final := worker_run (pinger 3) (start_worker 0) in
  responses final = replicate 3 alive
  /\ exists k : nat,
       next_check final = (15000 + 15000 * Z.of_nat k)%Z
       /\ (clock final < next_check final <= clock final + 15000)%Z
       /\ storage_reads final = check_times (start_worker 0) k.
Proof.
  apply (content_pings_keep_worker_awake 0 [] 3). vm_compute. reflexivity.
Defined.

(** *** The bridge's answers and invariants, on the reference page *)

Lemma document_query_witness :
  let query := VObj [("type", VStr "DOCUMENT_QUERY"); ("id", VStr "q1")] in
  let shown :=
    match (document_details (reference_page 0) ready_bridge).1 with
    | Return docResult => docResult
    | Throw _ => VUndef
    end in
  listener (reference_page 0) reference_globals (Some the_sandbox) query
    ready_bridge
  = (Return tt, postMessage (DOM_RESULT (VStr "q1") (Plain shown)) ready_bridge).
Proof.
  intros query shown.
  exact (proj1 (proj1 (document_query_answered (reference_page 0)
    reference_globals [("type", VStr "DOCUMENT_QUERY"); ("id", VStr "q1")] ready_bridge
    the_sandbox eq_refl eq_refl) shown eq_refl)).
Defined.


(** The call is answered with 2; then its timeout fires and an error with
    its id arrives. *)
Lemma settlement_is_final_witness :
  let s := run
             [Call (VStr "return 1+1") "k3x9w2p1q";
              from_the_sandbox (result_message "exec_1000_k3x9w2p1q" (VNum 2))]
             ready_bridge in
  promises (run
              [Elapse 30000; from_the_sandbox (error_message "exec_1000_k3x9w2p1q" "late")]
              s) !! 0
  = Some (Resolved (VNum 2)).
Proof.
  intros s.
  apply (settlement_is_final (elem := nat)
    [Elapse 30000; from_the_sandbox (error_message "exec_1000_k3x9w2p1q" "late")] s).
  vm_compute. reflexivity.
Defined.

Lemma repeated_response_witness :
  let data := result_message "exec_1000_k3x9w2p1q" (VNum 2) in
  let s := (execute (VStr "return 1+1") "k3x9w2p1q" ready_bridge).2 in
  let once := (listener (reference_page 0) reference_globals
                 (Some the_sandbox) data s).2 in
  listener (reference_page 0) reference_globals (Some the_sandbox) data once
  = (Return tt, once).
Proof.
  intros data s once.
  exact (proj2 (proj2 (repeated_response_ignored (reference_page 0)
    (reference_page 0) reference_globals reference_globals "exec_1000_k3x9w2p1q"
    data s eq_refl))).
Defined.



Lemma records_have_timeouts_witness :
  let s := run
             [from_the_sandbox ready_message; Call (VStr "return 1+1") "k3x9w2p1q"]
             (new_bridge 1000) in
  0 < next_call s
  /\ 0 < issue_count "exec_1000_k3x9w2p1q" (posted s)
  /\ exists d c', (d, ExecutionTimeout c' "exec_1000_k3x9w2p1q") ∈ timers s
                  /\ (now s < d <= now s + 30000)%Z.
Proof.
  intros s.
  apply (records_have_timeouts (elem := nat) s "exec_1000_k3x9w2p1q" 0).
  - by exists 1000%Z,
      [from_the_sandbox ready_message; Call (VStr "return 1+1") "k3x9w2p1q"].
  - vm_compute. reflexivity.
Defined.

Lemma intervals_witness :
  let s := run [Call (VStr "return 1+1") "k3x9w2p1q" : @event nat nat]
             (new_bridge 1000) in
  exists code rnd, waiting s !! 0 = Some (code, rnd).
Proof.
  intros s.
  apply (intervals_belong_to_waiting_calls (elem := nat) s 1050 0).
  - by exists 1000%Z, [Call (VStr "return 1+1") "k3x9w2p1q"].
  - apply elem_of_cons. by left.
Defined.
